(** * Swappo matchmaking service: trade-offer lifecycle and resilient calls

    A shallow embedding of [models.py], [grpc_client.py], [http_client.py]
    and the trade-offer endpoints of [main.py], together with the
    properties of the lifecycle state machine, the ownership validation
    and the retry / circuit-breaker wrappers.

    Conventions.
    - Item ids, offer ids and timestamps (seconds) are [Z]; user ids are
      [string]; counters are [nat].
    - A Python function that reads or writes the database session, the
      clock, a circuit breaker or a remote service is a computation
      [M A := World -> result A * World]; [raise] is [Raise e] and
      [try ... except] is [try_except].
    - The remote services are an environment [Env]: for each service a
      function from the number of earlier calls and the request to the
      outcome of the call. *)

From stdpp Require Import base gmap sets list strings sorting.
From Stdlib Require Import ZArith Lia.

Local Open Scope Z_scope.

(** ** models.py *)

(** [class TradeOfferStatus(str, Enum)]. *)
Inductive TradeOfferStatus :=
| pending | accepted | rejected | cancelled | completed.

#[global] Instance TradeOfferStatus_eq_dec : EqDecision TradeOfferStatus.
Proof. solve_decision. Defined.

(** [class TradeOfferDB(Base)]: a row of [trade_offers].  The [status]
    column holds [TradeOfferStatus.<x>.value]; every write in [main.py]
    stores such a value, so the column is modelled by the enum. *)
Module TradeOfferDB.
Record t := mk {
    id : Z;
    proposer_id : string;
    receiver_id : string;
    offered_item_ids : list Z;
    requested_item_ids : list Z;
    status : TradeOfferStatus;
    message : option string;
    created_at : Z;
    updated_at : Z;
    responded_at : option Z
  }.
End TradeOfferDB.

(** [class TradeOfferCreate(TradeOfferBase)]. *)
Module TradeOfferCreate.
Record t := mk {
    proposer_id : string;
    receiver_id : string;
    offered_item_ids : list Z;
    requested_item_ids : list Z;
    message : option string
  }.
End TradeOfferCreate.

(** ** Exceptions and results *)

(** The [detail] of each [HTTPException] raised in [main.py]. *)
Inductive Detail :=
| Cannot_create_trade_offer_with_yourself
| Duplicate_item_IDs_in_offered_items
| Duplicate_item_IDs_in_requested_items
| Same_item_cannot_be_both_offered_and_requested
| Items_not_found (invalid_ids : list Z)
| Items_are_not_active (inactive_ids : list Z)
| Proposer_does_not_own_offered_items (wrong_ids : list Z)
| Receiver_does_not_own_requested_items (wrong_ids : list Z)
| Catalog_service_unavailable_circuit_breaker_open
| Catalog_service_unavailable
| Trade_offer_not_found (offer_id : Z)
| Invalid_status_transition_for_proposer
| Invalid_status_transition_for_receiver
| User_not_authorized_to_modify_this_trade_offer
| Only_the_proposer_can_delete_a_trade_offer
| Can_only_delete_pending_trade_offers.

Inductive exn :=
| HTTPException (status_code : Z) (detail : Detail)
| CircuitBreakerError          (* pybreaker.CircuitBreakerError *)
| RpcError                     (* grpc.RpcError *)
| RequestError                 (* httpx.RequestError: transport failure *)
| HTTPStatusError              (* httpx.HTTPStatusError *)
| OtherException.              (* any other subclass of Exception *)

#[global] Instance Detail_eq_dec : EqDecision Detail.
Proof. solve_decision. Defined.
#[global] Instance exn_eq_dec : EqDecision exn.
Proof. solve_decision. Defined.

Inductive result (A : Type) :=
| Ok (a : A)
| Raise (e : exn).
Arguments Ok {A} a.
Arguments Raise {A} e.

Definition is_ok {A} (r : result A) : bool :=
  match r with Ok _ => true | Raise _ => false end.

(** The names the interface gives to the lifecycle errors. *)
Definition HTTP_400_BAD_REQUEST : Z := 400.
Definition HTTP_403_FORBIDDEN : Z := 403.
Definition HTTP_404_NOT_FOUND : Z := 404.
Definition HTTP_503_SERVICE_UNAVAILABLE : Z := 503.

Definition Unauthorized : exn :=
  HTTPException HTTP_403_FORBIDDEN User_not_authorized_to_modify_this_trade_offer.
Definition DeleteUnauthorized : exn :=
  HTTPException HTTP_403_FORBIDDEN Only_the_proposer_can_delete_a_trade_offer.
Definition InvalidState : exn :=
  HTTPException HTTP_400_BAD_REQUEST Can_only_delete_pending_trade_offers.
Definition InvalidTransition (e : exn) : Prop :=
  e = HTTPException HTTP_400_BAD_REQUEST Invalid_status_transition_for_proposer ∨
  e = HTTPException HTTP_400_BAD_REQUEST Invalid_status_transition_for_receiver.

(** ** Remote services and the world *)

(** One entry of [response.validations] of the catalog's [ValidateItems],
    and of the list [validate_items] returns. *)
Record ValidationResult := {
  item_id : Z;
  exists_ : bool;
  is_active : bool;
  owner_id : string
}.

(** [notification_data] of [send_trade_notification]. *)
Record NotificationData := {
  user_id : string;
  related_offer_id : Z;
  related_user_id : string;
  type_ : string;
  title : string;
  body : string
}.

(** [chat_room_data] of [create_chat_room]. *)
Record ChatRoomData := {
  trade_offer_id : Z;
  user1_id : string;
  user2_id : string
}.

(** An [httpx.Response]: its status code ([response.json()] is the
    payload the chat service answers with, kept abstract as an id). *)
Record Response := { response_status_code : Z; response_json : Z }.

(** The remote services.  The [nat] is the number of calls the service
    has received before this one. *)
Record Env := {
  catalog_ValidateItems : nat → list Z → result (list ValidationResult);
  notifications_post : nat → NotificationData → result Response;
  chat_rooms_post : nat → ChatRoomData → result Response
}.

Inductive CircuitState := STATE_CLOSED | STATE_OPEN | STATE_HALF_OPEN.

#[global] Instance CircuitState_eq_dec : EqDecision CircuitState.
Proof. solve_decision. Defined.

(** [CircuitBreaker(fail_max=.., reset_timeout=..)] with its state. *)
Record CircuitBreaker := {
  fail_max : nat;
  reset_timeout : Z;
  state : CircuitState;
  fail_counter : nat;
  opened_at : Z
}.

Inductive Event :=
| EvCommit (row : TradeOfferDB.t)          (* db.commit() of an insert or update *)
| EvDelete (offer_id : Z)                  (* db.commit() of a delete *)
| EvValidateItems (item_ids : list Z)      (* stub.ValidateItems(request) *)
| EvNotification (data : NotificationData) (* POST /api/v1/notifications *)
| EvChatRoom (data : ChatRoomData)         (* POST /api/v1/chat-rooms *)
| EvSleep (seconds : Z).                   (* wait between two attempts *)

Record World := {
  db : gmap Z TradeOfferDB.t;
  next_id : Z;
  now : Z;
  trace : list Event;
  catalog_calls : nat;
  notification_calls : nat;
  chat_calls : nat;
  catalog_circuit_breaker : CircuitBreaker;
  notification_circuit_breaker : CircuitBreaker;
  chat_circuit_breaker : CircuitBreaker
}.

Definition M (A : Type) : Type := World → result A * World.

Definition ret {A} (a : A) : M A := fun w => (Ok a, w).
Definition raise {A} (e : exn) : M A := fun w => (Raise e, w).
Definition bind {A B} (m : M A) (k : A → M B) : M B := fun w =>
  match m w with
  | (Ok a, w1) => k a w1
  | (Raise e, w1) => (Raise e, w1)
  end.

Notation "'let*' x := m 'in' k" := (bind m (fun x => k))
  (at level 10, x pattern, m at level 100, k at level 200).

(** [try: m except <handled>: h]: [handler e] is the [except] clause that
    matches [e], if there is one. *)
Definition try_except {A} (m : M A) (handler : exn → option (M A)) : M A := fun w =>
  match m w with
  | (Ok a, w1) => (Ok a, w1)
  | (Raise e, w1) =>
      match handler e with
      | Some h => h w1
      | None => (Raise e, w1)
      end
  end.

(** Field updates of the world. *)
Definition with_db (f : gmap Z TradeOfferDB.t → gmap Z TradeOfferDB.t) (w : World) : World :=
  {| db := f (db w); next_id := next_id w; now := now w; trace := trace w;
     catalog_calls := catalog_calls w; notification_calls := notification_calls w;
     chat_calls := chat_calls w;
     catalog_circuit_breaker := catalog_circuit_breaker w;
     notification_circuit_breaker := notification_circuit_breaker w;
     chat_circuit_breaker := chat_circuit_breaker w |}.

Definition with_next_id (n : Z) (w : World) : World :=
  {| db := db w; next_id := n; now := now w; trace := trace w;
     catalog_calls := catalog_calls w; notification_calls := notification_calls w;
     chat_calls := chat_calls w;
     catalog_circuit_breaker := catalog_circuit_breaker w;
     notification_circuit_breaker := notification_circuit_breaker w;
     chat_circuit_breaker := chat_circuit_breaker w |}.

Definition with_now (t : Z) (w : World) : World :=
  {| db := db w; next_id := next_id w; now := t; trace := trace w;
     catalog_calls := catalog_calls w; notification_calls := notification_calls w;
     chat_calls := chat_calls w;
     catalog_circuit_breaker := catalog_circuit_breaker w;
     notification_circuit_breaker := notification_circuit_breaker w;
     chat_circuit_breaker := chat_circuit_breaker w |}.

Definition log (e : Event) (w : World) : World :=
  {| db := db w; next_id := next_id w; now := now w; trace := trace w ++ [e];
     catalog_calls := catalog_calls w; notification_calls := notification_calls w;
     chat_calls := chat_calls w;
     catalog_circuit_breaker := catalog_circuit_breaker w;
     notification_circuit_breaker := notification_circuit_breaker w;
     chat_circuit_breaker := chat_circuit_breaker w |}.

Definition with_calls (catalog notification chat : nat) (w : World) : World :=
  {| db := db w; next_id := next_id w; now := now w; trace := trace w;
     catalog_calls := catalog; notification_calls := notification;
     chat_calls := chat;
     catalog_circuit_breaker := catalog_circuit_breaker w;
     notification_circuit_breaker := notification_circuit_breaker w;
     chat_circuit_breaker := chat_circuit_breaker w |}.

(** The [name=] of the three breakers; a breaker object passed as an
    argument is passed by this name. *)
Inductive BreakerName := catalog_grpc | notifications_http | chat_http.

Definition breaker (name : BreakerName) (w : World) : CircuitBreaker :=
  match name with
  | catalog_grpc => catalog_circuit_breaker w
  | notifications_http => notification_circuit_breaker w
  | chat_http => chat_circuit_breaker w
  end.

Definition with_breaker (name : BreakerName) (cb : CircuitBreaker) (w : World) : World :=
  {| db := db w; next_id := next_id w; now := now w; trace := trace w;
     catalog_calls := catalog_calls w; notification_calls := notification_calls w;
     chat_calls := chat_calls w;
     catalog_circuit_breaker :=
       match name with catalog_grpc => cb | _ => catalog_circuit_breaker w end;
     notification_circuit_breaker :=
       match name with notifications_http => cb | _ => notification_circuit_breaker w end;
     chat_circuit_breaker :=
       match name with chat_http => cb | _ => chat_circuit_breaker w end |}.

(** [time.sleep(seconds)] between two attempts. *)
Definition sleep (seconds : Z) (w : World) : World :=
  log (EvSleep seconds) (with_now (now w + seconds) w).

(** ** Circuit breaker *)

(** Modelled from the spec: [pybreaker.CircuitBreaker.call] is imported,
    not part of the sources; the three transitions below follow section
    4.1 of the specification (closed / open / half_open), with the
    thresholds the sources pass to the constructor.  The breaker lock
    serialises the calls, so a call finds the breaker closed or open. *)
Definition on_success (cb : CircuitBreaker) : CircuitBreaker :=
  {| fail_max := fail_max cb; reset_timeout := reset_timeout cb;
     state := STATE_CLOSED; fail_counter := 0; opened_at := opened_at cb |}.

Definition trip (t : Z) (n : nat) (cb : CircuitBreaker) : CircuitBreaker :=
  {| fail_max := fail_max cb; reset_timeout := reset_timeout cb;
     state := STATE_OPEN; fail_counter := n; opened_at := t |}.

Definition on_failure (t : Z) (cb : CircuitBreaker) : CircuitBreaker :=
  match state cb with
  | STATE_CLOSED =>
      let n := S (fail_counter cb) in
      if decide (fail_max cb ≤ n)%nat then trip t n cb
      else {| fail_max := fail_max cb; reset_timeout := reset_timeout cb;
              state := STATE_CLOSED; fail_counter := n; opened_at := opened_at cb |}
  | _ => trip t (S (fail_counter cb)) cb
  end.

Definition half_open (cb : CircuitBreaker) : CircuitBreaker :=
  {| fail_max := fail_max cb; reset_timeout := reset_timeout cb;
     state := STATE_HALF_OPEN; fail_counter := fail_counter cb;
     opened_at := opened_at cb |}.

(** Whether the call goes through: [None] is [CircuitOpenFailure]. *)
Definition before_call (name : BreakerName) (w : World) : option World :=
  let cb := breaker name w in
  match state cb with
  | STATE_CLOSED => Some w
  | STATE_HALF_OPEN => Some w
  | STATE_OPEN =>
      if decide (reset_timeout cb < now w - opened_at cb)
      then Some (with_breaker name (half_open cb) w)
      else None
  end.

(** [circuit_breaker.call(operation)]. *)
Definition call {A} (name : BreakerName) (operation : M A) : M A := fun w =>
  match before_call name w with
  | None => (Raise CircuitBreakerError, w)
  | Some w0 =>
      match operation w0 with
      | (Ok a, w1) => (Ok a, with_breaker name (on_success (breaker name w1)) w1)
      | (Raise e, w1) =>
          (Raise e, with_breaker name (on_failure (now w1) (breaker name w1)) w1)
      end
  end.

(** ** Retry *)

(** Modelled from the spec: [tenacity.retry] is imported, not part of the
    sources; the loop follows section 4.2 of the specification, with the
    arguments of the decorators ([retry=], [stop=], [wait=],
    [reraise=True]).  Besides the outcome, a run records how often the
    operation was invoked and the waits between the attempts. *)
Definition wait_exponential (multiplier min max : Z) (attempt_number : nat) : Z :=
  Z.max (Z.max 0 min) (Z.min (multiplier * 2 ^ (Z.of_nat attempt_number - 1)) max).

Record RetryRun (St A : Type) := {
  outcome : result A;
  final : St;
  invocations : nat;
  waits : list Z
}.
Arguments outcome {St A} r.
Arguments final {St A} r.
Arguments invocations {St A} r.
Arguments waits {St A} r.

Section Retry.
Context {St A : Type}.
Variable retry : exn → bool.
Variable wait : nat → Z.
Variable pause : Z → St → St.

Fixpoint retry_loop (retries_left attempt_number : nat)
      (operation : St → result A * St) (s : St) : RetryRun St A :=
    match operation s with
    | (Ok a, s1) =>
        {| outcome := Ok a; final := s1; invocations := 1; waits := [] |}
    | (Raise e, s1) =>
        if retry e then
          match retries_left with
          | O => {| outcome := Raise e; final := s1; invocations := 1; waits := [] |}
          | S k =>
              let r := retry_loop k (S attempt_number) operation
                         (pause (wait attempt_number) s1) in
              {| outcome := outcome r; final := final r;
                 invocations := S (invocations r);
                 waits := wait attempt_number :: waits r |}
          end
        else {| outcome := Raise e; final := s1; invocations := 1; waits := [] |}
    end.

  (** [stop=stop_after_attempt(n)]: the first attempt has number 1. *)
Definition retrying (stop_after_attempt : nat)
      (operation : St → result A * St) (s : St) : RetryRun St A :=
    retry_loop (stop_after_attempt - 1) 1 operation s.
End Retry.

(** [stop=stop_after_attempt(3), wait=wait_exponential(multiplier=1,
    min=1, max=10), reraise=True], the same on every decorated function. *)
Definition with_retry {A} (retry : exn → bool) (operation : M A) (w : World)
    : RetryRun World A :=
  retrying retry (wait_exponential 1 1 10) sleep 3 operation w.

Definition run_retry {A} (retry : exn → bool) (operation : M A) : M A := fun w =>
  let r := with_retry retry operation w in (outcome r, final r).

(** ** grpc_client.py *)

(** [retry=retry_if_exception_type(grpc.RpcError)]. *)
Definition retry_if_RpcError (e : exn) : bool :=
  match e with RpcError => true | _ => false end.

(** [self.stub.ValidateItems(request)]: the remote call. *)
Definition stub_ValidateItems (env : Env) (item_ids : list Z)
    : M (list ValidationResult) := fun w =>
  (catalog_ValidateItems env (catalog_calls w) item_ids,
   log (EvValidateItems item_ids)
     (with_calls (S (catalog_calls w)) (notification_calls w) (chat_calls w) w)).

(** The body of [CatalogClient.validate_items], one attempt.
    [self.connect()] only builds the channel object; the metrics of the
    [finally] clause are not modelled. *)
Definition validate_items_attempt (env : Env) (item_ids : list Z)
    : M (list ValidationResult) :=
  try_except
    (let* response := call catalog_grpc (stub_ValidateItems env item_ids) in
     ret (map (fun validation =>
                 {| item_id := item_id validation;
                    exists_ := exists_ validation;
                    is_active := is_active validation;
                    owner_id := owner_id validation |}) response))
    (fun e =>
       match e with
       | CircuitBreakerError => Some (raise CircuitBreakerError)
       | RpcError => Some (raise RpcError)
       | _ => None
       end).

(** [CatalogClient.validate_items] with its [@retry] decorator. *)
Definition validate_items (env : Env) (item_ids : list Z)
    : M (list ValidationResult) :=
  run_retry retry_if_RpcError (validate_items_attempt env item_ids).

(** ** http_client.py *)

(** [retry=retry_if_exception_type((httpx.RequestError,
    httpx.HTTPStatusError))]. *)
Definition retry_if_httpx_error (e : exn) : bool :=
  match e with RequestError | HTTPStatusError => true | _ => false end.

(** [client.post(url, json=json_data)] for the two urls the service posts
    to: the coroutine that performs the request once it is awaited. *)
Definition post_notification (env : Env) (json_data : NotificationData)
    : M Response := fun w =>
  (notifications_post env (notification_calls w) json_data,
   log (EvNotification json_data)
     (with_calls (catalog_calls w) (S (notification_calls w)) (chat_calls w) w)).

Definition post_chat_room (env : Env) (json_data : ChatRoomData)
    : M Response := fun w =>
  (chat_rooms_post env (chat_calls w) json_data,
   log (EvChatRoom json_data)
     (with_calls (catalog_calls w) (notification_calls w) (S (chat_calls w)) w)).

(** The body of [http_post_with_retry], one attempt.  [_make_request]
    returns the coroutine [client.post(...)] without running it;
    [circuit_breaker.call(_make_request)] hands that coroutine back as
    [response], and [await response] then performs the request. *)
Definition http_post_attempt (client_post : M Response)
    (circuit_breaker : BreakerName) : M Response :=
  let _make_request : M (M Response) := ret client_post in
  let* response := call circuit_breaker _make_request in
  response.

(** [http_post_with_retry] with its [@retry] decorator. *)
Definition http_post_with_retry (client_post : M Response)
    (circuit_breaker : BreakerName) : M Response :=
  run_retry retry_if_httpx_error (http_post_attempt client_post circuit_breaker).

(** [send_notification_resilient]; [except Exception] handles every
    exception of [exn]. *)
Definition send_notification_resilient (env : Env)
    (notification_data : NotificationData) : M bool :=
  try_except
    (let* response :=
       http_post_with_retry (post_notification env notification_data)
         notifications_http in
     if decide (response_status_code response = 201) then ret true
     else ret false)
    (fun e => Some (ret false)).

(** [create_chat_room_resilient]: the response json, or [None]. *)
Definition create_chat_room_resilient (env : Env) (chat_data : ChatRoomData)
    : M (option Z) :=
  try_except
    (let* response :=
       http_post_with_retry (post_chat_room env chat_data) chat_http in
     if decide (response_status_code response = 201)
     then ret (Some (response_json response))
     else ret None)
    (fun e => Some (ret None)).

(** ** main.py *)

(** [create_chat_room]. *)
Definition create_chat_room (env : Env) (offer : TradeOfferDB.t) : M (option Z) :=
  let chat_room_data :=
    {| trade_offer_id := TradeOfferDB.id offer;
       user1_id := TradeOfferDB.proposer_id offer;
       user2_id := TradeOfferDB.receiver_id offer |} in
  create_chat_room_resilient env chat_room_data.

(** [send_trade_notification].  [None] stands for the branch that returns
    without sending ("No notification needed"). *)
Definition notification_for (offer : TradeOfferDB.t) (new_status : TradeOfferStatus)
    (actor_id : string) : option NotificationData :=
  let recipient_id :=
    if decide (actor_id = TradeOfferDB.receiver_id offer)
    then TradeOfferDB.proposer_id offer
    else TradeOfferDB.receiver_id offer in
  let notification_data (type_ title body : string) :=
    {| user_id := recipient_id;
       related_offer_id := TradeOfferDB.id offer;
       related_user_id := actor_id;
       type_ := type_; title := title; body := body |} in
  match new_status with
  | accepted =>
      Some (notification_data "trade_offer_accepted" "Trade Offer Accepted! 🎉"
              "Great news! Your trade offer has been accepted.")
  | rejected =>
      Some (notification_data "trade_offer_rejected" "Trade Offer Declined"
              "Your trade offer was declined. Keep exploring!")
  | cancelled =>
      Some (notification_data "trade_offer_cancelled" "Trade Offer Cancelled"
              "A trade offer you received has been cancelled.")
  | completed =>
      Some (notification_data "trade_completed" "Trade Completed! ✅"
              "Congratulations! Your trade has been completed.")
  | pending => None
  end.

Definition send_trade_notification (env : Env) (offer : TradeOfferDB.t)
    (new_status : TradeOfferStatus) (actor_id : string) : M unit :=
  match notification_for offer new_status actor_id with
  | None => ret tt
  | Some notification_data =>
      let* _ := send_notification_resilient env notification_data in
      ret tt
  end.

(** [set(item_ids)]. *)
Definition set_of (item_ids : list Z) : gset Z := list_to_set item_ids.

(** The checks of [create_trade_offer] on the list [validations] the
    catalog client returned (the statements of the [try] block after the
    call), in the order of the source. *)
Definition check_validations (offer_data : TradeOfferCreate.t)
    (validations : list ValidationResult) : M unit :=
  let offered_set := set_of (TradeOfferCreate.offered_item_ids offer_data) in
  let requested_set := set_of (TradeOfferCreate.requested_item_ids offer_data) in
  let invalid_items := filter (fun v => exists_ v = false) validations in
  if decide (invalid_items ≠ []) then
    raise (HTTPException HTTP_404_NOT_FOUND (Items_not_found (map item_id invalid_items)))
  else
  let inactive_items := filter (fun v => is_active v = false) validations in
  if decide (inactive_items ≠ []) then
    raise (HTTPException HTTP_400_BAD_REQUEST
             (Items_are_not_active (map item_id inactive_items)))
  else
  let offered_validations := filter (fun v => item_id v ∈ offered_set) validations in
  let wrong_owner :=
    filter (fun v => owner_id v ≠ TradeOfferCreate.proposer_id offer_data)
      offered_validations in
  if decide (wrong_owner ≠ []) then
    raise (HTTPException HTTP_403_FORBIDDEN
             (Proposer_does_not_own_offered_items (map item_id wrong_owner)))
  else
  let requested_validations :=
    filter (fun v => item_id v ∈ requested_set) validations in
  let wrong_owner :=
    filter (fun v => owner_id v ≠ TradeOfferCreate.receiver_id offer_data)
      requested_validations in
  if decide (wrong_owner ≠ []) then
    raise (HTTPException HTTP_403_FORBIDDEN
             (Receiver_does_not_own_requested_items (map item_id wrong_owner)))
  else ret tt.

(** [db.add(db_offer); db.commit(); db.refresh(db_offer)]: the store
    assigns the id and stamps [created_at] and [updated_at]. *)
Definition db_insert (offer_data : TradeOfferCreate.t) : M TradeOfferDB.t := fun w =>
  let db_offer :=
    {| TradeOfferDB.id := next_id w;
       TradeOfferDB.proposer_id := TradeOfferCreate.proposer_id offer_data;
       TradeOfferDB.receiver_id := TradeOfferCreate.receiver_id offer_data;
       TradeOfferDB.offered_item_ids := TradeOfferCreate.offered_item_ids offer_data;
       TradeOfferDB.requested_item_ids := TradeOfferCreate.requested_item_ids offer_data;
       TradeOfferDB.status := pending;
       TradeOfferDB.message := TradeOfferCreate.message offer_data;
       TradeOfferDB.created_at := now w;
       TradeOfferDB.updated_at := now w;
       TradeOfferDB.responded_at := None |} in
  (Ok db_offer,
   log (EvCommit db_offer)
     (with_next_id (next_id w + 1) (with_db (insert (next_id w) db_offer) w))).

(** [create_trade_offer]. *)
Definition create_trade_offer (env : Env) (offer_data : TradeOfferCreate.t)
    : M TradeOfferDB.t :=
  let offered_item_ids := TradeOfferCreate.offered_item_ids offer_data in
  let requested_item_ids := TradeOfferCreate.requested_item_ids offer_data in
  if decide (TradeOfferCreate.proposer_id offer_data
             = TradeOfferCreate.receiver_id offer_data) then
    raise (HTTPException HTTP_400_BAD_REQUEST Cannot_create_trade_offer_with_yourself)
  else if decide (length offered_item_ids ≠ size (set_of offered_item_ids)) then
    raise (HTTPException HTTP_400_BAD_REQUEST Duplicate_item_IDs_in_offered_items)
  else if decide (length requested_item_ids ≠ size (set_of requested_item_ids)) then
    raise (HTTPException HTTP_400_BAD_REQUEST Duplicate_item_IDs_in_requested_items)
  else
  let offered_set := set_of offered_item_ids in
  let requested_set := set_of requested_item_ids in
  if decide (offered_set ∩ requested_set ≠ ∅) then
    raise (HTTPException HTTP_400_BAD_REQUEST
             Same_item_cannot_be_both_offered_and_requested)
  else
  let all_item_ids := offered_item_ids ++ requested_item_ids in
  let* _ :=
    try_except
      (let* validations := validate_items env all_item_ids in
       check_validations offer_data validations)
      (fun e =>
         match e with
         | CircuitBreakerError =>
             Some (raise (HTTPException HTTP_503_SERVICE_UNAVAILABLE
                            Catalog_service_unavailable_circuit_breaker_open))
         | RpcError =>
             Some (raise (HTTPException HTTP_503_SERVICE_UNAVAILABLE
                            Catalog_service_unavailable))
         | _ => None
         end) in
  db_insert offer_data.

(** The assignments to [db_offer] and [db.commit(); db.refresh(db_offer)]
    of [update_trade_offer_status]: [status] always, [responded_at] for
    accept / reject, [updated_at] by the store ([onupdate=func.now()]). *)
Definition db_update_status (db_offer : TradeOfferDB.t)
    (new_status : TradeOfferStatus) : M TradeOfferDB.t := fun w =>
  let updated :=
    {| TradeOfferDB.id := TradeOfferDB.id db_offer;
       TradeOfferDB.proposer_id := TradeOfferDB.proposer_id db_offer;
       TradeOfferDB.receiver_id := TradeOfferDB.receiver_id db_offer;
       TradeOfferDB.offered_item_ids := TradeOfferDB.offered_item_ids db_offer;
       TradeOfferDB.requested_item_ids := TradeOfferDB.requested_item_ids db_offer;
       TradeOfferDB.status := new_status;
       TradeOfferDB.message := TradeOfferDB.message db_offer;
       TradeOfferDB.created_at := TradeOfferDB.created_at db_offer;
       TradeOfferDB.updated_at := now w;
       TradeOfferDB.responded_at :=
         if decide (new_status ∈ [accepted; rejected]) then Some (now w)
         else TradeOfferDB.responded_at db_offer |} in
  (Ok updated,
   log (EvCommit updated) (with_db (insert (TradeOfferDB.id db_offer) updated) w)).

(** The permission and transition checks of [update_trade_offer_status]. *)
Definition check_transition (db_offer : TradeOfferDB.t)
    (new_status : TradeOfferStatus) (user_id : string) : M unit :=
  let current_status := TradeOfferDB.status db_offer in
  if decide (user_id = TradeOfferDB.proposer_id db_offer) then
    if decide (current_status = pending ∧ new_status = cancelled) then ret tt
    else if decide (current_status = accepted ∧ new_status = completed) then ret tt
    else raise (HTTPException HTTP_400_BAD_REQUEST
                  Invalid_status_transition_for_proposer)
  else if decide (user_id = TradeOfferDB.receiver_id db_offer) then
    if decide (current_status = pending ∧ new_status ∈ [accepted; rejected])
    then ret tt
    else if decide (current_status = accepted ∧ new_status = completed) then ret tt
    else raise (HTTPException HTTP_400_BAD_REQUEST
                  Invalid_status_transition_for_receiver)
  else raise Unauthorized.

(** [db.query(TradeOfferDB).filter(TradeOfferDB.id == offer_id).first()]
    followed by the 404 of the three endpoints that use it. *)
Definition get_or_404 (offer_id : Z) : M TradeOfferDB.t := fun w =>
  match db w !! offer_id with
  | Some db_offer => (Ok db_offer, w)
  | None => (Raise (HTTPException HTTP_404_NOT_FOUND (Trade_offer_not_found offer_id)), w)
  end.

(** [update_trade_offer_status]. *)
Definition update_trade_offer_status (env : Env) (offer_id : Z)
    (new_status : TradeOfferStatus) (user_id : string) : M TradeOfferDB.t :=
  let* db_offer := get_or_404 offer_id in
  let* _ := check_transition db_offer new_status user_id in
  let* db_offer := db_update_status db_offer new_status in
  let* _ := send_trade_notification env db_offer new_status user_id in
  let* _ :=
    if decide (new_status = accepted) then create_chat_room env db_offer
    else ret None in
  ret db_offer.

(** [delete_trade_offer]. *)
Definition delete_trade_offer (offer_id : Z) (user_id : string) : M unit :=
  let* db_offer := get_or_404 offer_id in
  if decide (user_id ≠ TradeOfferDB.proposer_id db_offer) then
    raise DeleteUnauthorized
  else if decide (TradeOfferDB.status db_offer ≠ pending) then
    raise InvalidState
  else fun w =>
    (Ok tt, log (EvDelete offer_id) (with_db (delete offer_id) w)).

(** ** Running the service *)

Definition new_breaker (fail_max : nat) (reset_timeout : Z) : CircuitBreaker :=
  {| fail_max := fail_max; reset_timeout := reset_timeout;
     state := STATE_CLOSED; fail_counter := 0; opened_at := 0 |}.

(** The service at start-up, at time [t0]: an empty table, the three
    breakers as the modules construct them ([fail_max=5], 60 seconds). *)
Definition initial_world (t0 : Z) : World :=
  {| db := ∅; next_id := 1; now := t0; trace := [];
     catalog_calls := 0; notification_calls := 0; chat_calls := 0;
     catalog_circuit_breaker := new_breaker 5 60;
     notification_circuit_breaker := new_breaker 5 60;
     chat_circuit_breaker := new_breaker 5 60 |}.

(** What happens to the service: the three mutating endpoints, and time
    passing between two requests. *)
Inductive Request :=
| POST_offer (offer_data : TradeOfferCreate.t)
| PATCH_offer (offer_id : Z) (new_status : TradeOfferStatus) (user_id : string)
| DELETE_offer (offer_id : Z) (user_id : string)
| Elapse (seconds : nat).

Definition exec (env : Env) (r : Request) (w : World) : World :=
  match r with
  | POST_offer offer_data => snd (create_trade_offer env offer_data w)
  | PATCH_offer offer_id new_status user_id =>
      snd (update_trade_offer_status env offer_id new_status user_id w)
  | DELETE_offer offer_id user_id => snd (delete_trade_offer offer_id user_id w)
  | Elapse seconds => with_now (now w + Z.of_nat seconds) w
  end.

Definition run (env : Env) (requests : list Request) (w : World) : World :=
  foldl (fun w r => exec env r w) w requests.

Inductive reachable (env : Env) : World → Prop :=
| reachable_init t0 : reachable env (initial_world t0)
| reachable_exec w r : reachable env w → reachable env (exec env r w).

(** * Properties *)

(** ** Computations that leave the table alone *)

Definition is_dispatch (e : Event) : Prop :=
  match e with
  | EvCommit _ | EvDelete _ => False
  | _ => True
  end.

(** [w'] differs from [w] by remote calls, waits and breaker updates
    only: same rows, same id counter, and the events added to the trace
    are no commits. *)
Record effects_only (w w' : World) : Prop := {
  eo_db : db w' = db w;
  eo_next_id : next_id w' = next_id w;
  eo_trace : ∃ evs, trace w' = trace w ++ evs ∧ Forall is_dispatch evs
}.

Definition dispatch_only {A} (m : M A) : Prop := ∀ w, effects_only w (snd (m w)).

Lemma effects_only_refl w : effects_only w w.
Proof. split; [done..|]. exists []. by rewrite app_nil_r. Qed.

Lemma effects_only_trans w1 w2 w3 :
  effects_only w1 w2 → effects_only w2 w3 → effects_only w1 w3.
Proof.
  intros [Hd1 Hn1 (e1 & Ht1 & Hf1)] [Hd2 Hn2 (e2 & Ht2 & Hf2)].
  split; [congruence..|].
  exists (e1 ++ e2). split.
  - by rewrite Ht2, Ht1, app_assoc.
  - by apply Forall_app.
Qed.

Lemma effects_only_log e w : is_dispatch e → effects_only w (log e w).
Proof. intros He. split; [done..|]. exists [e]. split; [done|]. by constructor. Qed.

Lemma effects_only_with_now t w : effects_only w (with_now t w).
Proof. split; [done..|]. exists []. by rewrite app_nil_r. Qed.

Lemma effects_only_with_calls a b c w : effects_only w (with_calls a b c w).
Proof. split; [done..|]. exists []. by rewrite app_nil_r. Qed.

Lemma effects_only_with_breaker name cb w : effects_only w (with_breaker name cb w).
Proof. split; [done..|]. exists []. by rewrite app_nil_r. Qed.

Lemma effects_only_sleep s w : effects_only w (sleep s w).
Proof.
  unfold sleep. eapply effects_only_trans; [apply effects_only_with_now|].
  by apply effects_only_log.
Qed.

Lemma dispatch_only_ret {A} (a : A) : dispatch_only (ret a).
Proof. intros w. apply effects_only_refl. Qed.

Lemma dispatch_only_raise {A} e : dispatch_only (@raise A e).
Proof. intros w. apply effects_only_refl. Qed.

Lemma dispatch_only_bind {A B} (m : M A) (k : A → M B) :
  dispatch_only m → (∀ a, dispatch_only (k a)) → dispatch_only (bind m k).
Proof.
  intros Hm Hk w. unfold bind. specialize (Hm w).
  destruct (m w) as [[a|e] w1]; simpl in *; [|done].
  eapply effects_only_trans; [exact Hm|apply Hk].
Qed.

Lemma dispatch_only_try_except {A} (m : M A) handler :
  dispatch_only m → (∀ e h, handler e = Some h → dispatch_only h) →
  dispatch_only (try_except m handler).
Proof.
  intros Hm Hh w. unfold try_except. specialize (Hm w).
  destruct (m w) as [[a|e] w1]; simpl in *; [done|].
  destruct (handler e) as [h|] eqn:He; [|done].
  eapply effects_only_trans; [exact Hm|by eapply Hh].
Qed.

Lemma before_call_effects name w w0 :
  before_call name w = Some w0 → effects_only w w0.
Proof.
  unfold before_call. destruct (state (breaker name w)).
  - intros [= <-]. apply effects_only_refl.
  - case_decide; [|done]. intros [= <-]. apply effects_only_with_breaker.
  - intros [= <-]. apply effects_only_refl.
Qed.

Lemma dispatch_only_call {A} name (operation : M A) :
  dispatch_only operation → dispatch_only (call name operation).
Proof.
  intros Hop w. unfold call.
  destruct (before_call name w) as [w0|] eqn:Hb; [|apply effects_only_refl].
  apply before_call_effects in Hb. specialize (Hop w0).
  destruct (operation w0) as [[a|e] w1]; simpl in *;
    (eapply effects_only_trans; [exact Hb|]);
    (eapply effects_only_trans; [exact Hop|]);
    apply effects_only_with_breaker.
Qed.

Lemma retry_loop_effects {A} retry wait (operation : M A) :
  dispatch_only operation →
  ∀ k n w, effects_only w (final (retry_loop retry wait sleep k n operation w)).
Proof.
  intros Hop k. induction k as [|k IH]; intros n w; simpl;
    specialize (Hop w); destruct (operation w) as [[a|e] w1]; simpl in *;
    try done; destruct (retry e); simpl; try done.
  eapply effects_only_trans; [exact Hop|].
  eapply effects_only_trans; [apply effects_only_sleep|]. apply IH.
Qed.

Lemma dispatch_only_run_retry {A} retry (operation : M A) :
  dispatch_only operation → dispatch_only (run_retry retry operation).
Proof. intros Hop w. exact (retry_loop_effects _ _ _ Hop _ _ _). Qed.

Lemma dispatch_only_stub_ValidateItems env ids :
  dispatch_only (stub_ValidateItems env ids).
Proof.
  intros w. unfold stub_ValidateItems; simpl.
  eapply effects_only_trans; [apply effects_only_with_calls|].
  by apply effects_only_log.
Qed.

Lemma dispatch_only_validate_items env ids : dispatch_only (validate_items env ids).
Proof.
  apply dispatch_only_run_retry, dispatch_only_try_except.
  - apply dispatch_only_bind; [|intros; apply dispatch_only_ret].
    apply dispatch_only_call, dispatch_only_stub_ValidateItems.
  - intros [] h; intros [= <-]; apply dispatch_only_raise.
Qed.

Lemma dispatch_only_post_notification env data :
  dispatch_only (post_notification env data).
Proof.
  intros w. unfold post_notification; simpl.
  eapply effects_only_trans; [apply effects_only_with_calls|].
  by apply effects_only_log.
Qed.

Lemma dispatch_only_post_chat_room env data :
  dispatch_only (post_chat_room env data).
Proof.
  intros w. unfold post_chat_room; simpl.
  eapply effects_only_trans; [apply effects_only_with_calls|].
  by apply effects_only_log.
Qed.

Lemma dispatch_only_http_post_with_retry client_post name :
  dispatch_only client_post → dispatch_only (http_post_with_retry client_post name).
Proof.
  intros Hp. apply dispatch_only_run_retry. intros w.
  unfold http_post_attempt, bind, call, ret.
  destruct (before_call name w) as [w0|] eqn:Hb; [|apply effects_only_refl].
  apply before_call_effects in Hb.
  eapply effects_only_trans; [exact Hb|].
  eapply effects_only_trans; [apply effects_only_with_breaker|]. apply Hp.
Qed.

Lemma dispatch_only_send_notification_resilient env data :
  dispatch_only (send_notification_resilient env data).
Proof.
  apply dispatch_only_try_except.
  - apply dispatch_only_bind.
    + apply dispatch_only_http_post_with_retry, dispatch_only_post_notification.
    + intros r. case_decide; apply dispatch_only_ret.
  - intros e h [= <-]. apply dispatch_only_ret.
Qed.

Lemma dispatch_only_create_chat_room env offer :
  dispatch_only (create_chat_room env offer).
Proof.
  apply dispatch_only_try_except.
  - apply dispatch_only_bind.
    + apply dispatch_only_http_post_with_retry, dispatch_only_post_chat_room.
    + intros r. case_decide; apply dispatch_only_ret.
  - intros e h [= <-]. apply dispatch_only_ret.
Qed.

Lemma dispatch_only_send_trade_notification env offer new_status actor_id :
  dispatch_only (send_trade_notification env offer new_status actor_id).
Proof.
  unfold send_trade_notification.
  destruct (notification_for _ _ _); [|apply dispatch_only_ret].
  apply dispatch_only_bind; [|intros; apply dispatch_only_ret].
  apply dispatch_only_send_notification_resilient.
Qed.

(** The two side-effect helpers never raise ([except Exception] returns
    [False] / [None]). *)
Lemma send_notification_resilient_returns env data w :
  ∃ sent, fst (send_notification_resilient env data w) = Ok sent.
Proof.
  unfold send_notification_resilient, try_except, bind, ret.
  destruct (http_post_with_retry _ _ w) as [[r|e] w1]; simpl; [|by eexists].
  case_decide; by eexists.
Qed.

Lemma create_chat_room_returns env offer w :
  ∃ room, fst (create_chat_room env offer w) = Ok room.
Proof.
  unfold create_chat_room, create_chat_room_resilient, try_except, bind, ret.
  destruct (http_post_with_retry _ _ w) as [[r|e] w1]; simpl; [|by eexists].
  case_decide; by eexists.
Qed.

Lemma send_trade_notification_returns env offer new_status actor_id w :
  fst (send_trade_notification env offer new_status actor_id w) = Ok tt.
Proof.
  unfold send_trade_notification.
  destruct (notification_for _ _ _) as [data|]; [|done].
  unfold bind. destruct (send_notification_resilient_returns env data w) as [sent Hs].
  destruct (send_notification_resilient env data w) as [[b|e] w1]; simpl in *; done.
Qed.

(** ** Python's [len(l) != len(set(l))] and [set(a).intersection(set(b))] *)

Lemma size_set_of_le (l : list Z) : (size (set_of l) ≤ length l)%nat.
Proof.
  unfold set_of. induction l as [|x l IH]; simpl.
  - done.
  - rewrite size_union_alt, size_singleton.
    assert (size (list_to_set l ∖ {[x]} : gset Z) ≤ size (list_to_set l : gset Z))%nat
      as Hsub by (apply subseteq_size; set_solver).
    lia.
Qed.

Lemma size_set_of_NoDup (l : list Z) : length l = size (set_of l) ↔ NoDup l.
Proof.
  split; [|intros H; unfold set_of; by rewrite size_list_to_set].
  unfold set_of. induction l as [|x l IH]; simpl; [constructor|].
  intros Hlen. destruct (decide (x ∈ l)) as [Hin|Hnin].
  - pose proof (size_set_of_le l) as Hle. unfold set_of in Hle.
    assert (x ∈ (list_to_set l : gset Z)) as Hx by (by apply elem_of_list_to_set).
    replace ({[x]} ∪ list_to_set l : gset Z) with (list_to_set l : gset Z) in Hlen
      by set_solver.
    lia.
  - constructor; [done|]. apply IH.
    assert (x ∉ (list_to_set l : gset Z)) as Hx by (by rewrite elem_of_list_to_set).
    rewrite size_union in Hlen by set_solver.
    rewrite size_singleton in Hlen. lia.
Qed.

Lemma set_of_overlap (a b : list Z) :
  set_of a ∩ set_of b ≠ ∅ ↔ ∃ x, x ∈ a ∧ x ∈ b.
Proof.
  unfold set_of. split.
  - intros H. apply set_choose_L in H as [x Hx]. exists x.
    apply elem_of_intersection in Hx as [Ha Hb].
    by rewrite !elem_of_list_to_set in Ha, Hb.
  - intros (x & Ha & Hb) He.
    assert (x ∈ (list_to_set a ∩ list_to_set b : gset Z)) as Hx
      by (apply elem_of_intersection; by rewrite !elem_of_list_to_set).
    rewrite He in Hx. set_solver.
Qed.

(** ** Creation: the checks before the catalog call *)

(** The four local checks of [create_trade_offer] pass. *)
Definition well_formed_request (offer_data : TradeOfferCreate.t) : Prop :=
  TradeOfferCreate.proposer_id offer_data ≠ TradeOfferCreate.receiver_id offer_data ∧
  NoDup (TradeOfferCreate.offered_item_ids offer_data) ∧
  NoDup (TradeOfferCreate.requested_item_ids offer_data) ∧
  ∀ x, x ∈ TradeOfferCreate.offered_item_ids offer_data →
       x ∈ TradeOfferCreate.requested_item_ids offer_data → False.

Lemma create_trade_offer_well_formed env offer_data :
  well_formed_request offer_data →
  create_trade_offer env offer_data =
  (let* _ :=
     try_except
       (let* validations :=
          validate_items env (TradeOfferCreate.offered_item_ids offer_data
                              ++ TradeOfferCreate.requested_item_ids offer_data) in
        check_validations offer_data validations)
       (fun e =>
          match e with
          | CircuitBreakerError =>
              Some (raise (HTTPException HTTP_503_SERVICE_UNAVAILABLE
                             Catalog_service_unavailable_circuit_breaker_open))
          | RpcError =>
              Some (raise (HTTPException HTTP_503_SERVICE_UNAVAILABLE
                             Catalog_service_unavailable))
          | _ => None
          end) in
   db_insert offer_data).
Proof.
  intros (Hne & Ho & Hr & Hd). unfold create_trade_offer.
  rewrite decide_False by done.
  rewrite decide_False by (rewrite size_set_of_NoDup; tauto).
  rewrite decide_False by (rewrite size_set_of_NoDup; tauto).
  rewrite decide_False; [done|].
  rewrite set_of_overlap. intros (x & Hx1 & Hx2). eauto.
Qed.

(** C5. A creation request with a duplicate in the offered list or in the
    requested list, with an item both offered and requested, or with the
    proposer as receiver, fails with a 400 validation error, and the
    world is left as it was: no catalog call (nor any other remote call)
    has been made, nothing was stored. *)
Theorem create_trade_offer_rejects_before_remote_call
    (env : Env) (offer_data : TradeOfferCreate.t) (w : World) :
  ¬ NoDup (TradeOfferCreate.offered_item_ids offer_data) ∨
  ¬ NoDup (TradeOfferCreate.requested_item_ids offer_data) ∨
  (∃ x, x ∈ TradeOfferCreate.offered_item_ids offer_data ∧
        x ∈ TradeOfferCreate.requested_item_ids offer_data) ∨
  TradeOfferCreate.proposer_id offer_data = TradeOfferCreate.receiver_id offer_data →
  ∃ detail,
    create_trade_offer env offer_data w
    = (Raise (HTTPException HTTP_400_BAD_REQUEST detail), w) ∧
    catalog_calls (snd (create_trade_offer env offer_data w)) = catalog_calls w ∧
    trace (snd (create_trade_offer env offer_data w)) = trace w.
Proof.
  intros H. unfold create_trade_offer.
  destruct (decide (TradeOfferCreate.proposer_id offer_data
                    = TradeOfferCreate.receiver_id offer_data)) as [|Hne];
    [by eexists|].
  case_decide as Ho; [by eexists|].
  case_decide as Hr; [by eexists|].
  case_decide as Hi; [by eexists|].
  exfalso. apply size_set_of_NoDup in Ho, Hr.
  destruct H as [H|[H|[H|H]]]; [done..| |done].
  by apply set_of_overlap in H.
Qed.

(** Two duplicate offered items: rejected with no call and no event. *)
Lemma create_trade_offer_rejects_witness :
  let env := {| catalog_ValidateItems := fun _ _ => Ok [];
                notifications_post := fun _ _ => Raise RequestError;
                chat_rooms_post := fun _ _ => Raise RequestError |} in
  let offer_data := TradeOfferCreate.mk "alice" "bob" [1; 1] [3] None in
  ∃ detail,
    create_trade_offer env offer_data (initial_world 0)
    = (Raise (HTTPException HTTP_400_BAD_REQUEST detail), initial_world 0) ∧
    catalog_calls (snd (create_trade_offer env offer_data (initial_world 0))) = 0%nat ∧
    trace (snd (create_trade_offer env offer_data (initial_world 0))) = [].
Proof.
  intros env offer_data.
  apply (create_trade_offer_rejects_before_remote_call env offer_data (initial_world 0)).
  left. simpl. intros Hnd. apply NoDup_cons in Hnd as [Hnin _].
  apply Hnin. by left.
Defined.

(** ** Deletion *)

(** C9. On an existing offer, deletion by anyone but the proposer is
    rejected with 403 whatever the status (so the receiver cannot delete a
    pending offer), deletion by the proposer of an offer that is not
    pending is rejected with 400, and deletion by the proposer of a
    pending offer succeeds and removes the row; hence deletion succeeds
    exactly for the proposer on a pending offer, and the authorisation
    check is decided first. *)
Theorem delete_trade_offer_only_pending_by_proposer
    (offer_id : Z) (user_id : string) (w : World) (db_offer : TradeOfferDB.t) :
  db w !! offer_id = Some db_offer →
  let r := delete_trade_offer offer_id user_id w in
  (user_id ≠ TradeOfferDB.proposer_id db_offer → r = (Raise DeleteUnauthorized, w)) ∧
  (user_id = TradeOfferDB.proposer_id db_offer →
   TradeOfferDB.status db_offer ≠ pending → r = (Raise InvalidState, w)) ∧
  (user_id = TradeOfferDB.proposer_id db_offer →
   TradeOfferDB.status db_offer = pending →
   fst r = Ok tt ∧ db (snd r) = delete offer_id (db w)) ∧
  (is_ok (fst r) = true ↔
   user_id = TradeOfferDB.proposer_id db_offer ∧ TradeOfferDB.status db_offer = pending).
Proof.
  intros Hdb r. subst r.
  unfold delete_trade_offer, bind, get_or_404, raise. rewrite Hdb.
  repeat case_decide; simpl; split_and!; try done; try tauto.
  all: split; [done|tauto].
Qed.

(** A sample deployment: a catalog that knows items 1 and 2 of alice and
    item 3 of bob, answers for unknown ids with [exists = false], and
    notification and chat services that refuse every connection. *)
Definition sample_catalog (item_id : Z) : ValidationResult :=
  if decide (item_id = 1 ∨ item_id = 2) then
    {| item_id := item_id; exists_ := true; is_active := true; owner_id := "alice" |}
  else if decide (item_id = 3) then
    {| item_id := item_id; exists_ := true; is_active := true; owner_id := "bob" |}
  else {| item_id := item_id; exists_ := false; is_active := false; owner_id := "" |}.

Definition sample_env : Env :=
  {| catalog_ValidateItems := fun _ item_ids => Ok (map sample_catalog item_ids);
     notifications_post := fun _ _ => Raise RequestError;
     chat_rooms_post := fun _ _ => Raise RequestError |}.

Definition sample_offer : TradeOfferCreate.t :=
  TradeOfferCreate.mk "alice" "bob" [1; 2] [3] None.

(** The service after alice proposed [1, 2] for [3] at time 0, and after
    bob accepted it 10 seconds later. *)
Definition world_pending : World :=
  run sample_env [POST_offer sample_offer] (initial_world 0).

Definition world_accepted : World :=
  run sample_env [Elapse 10; PATCH_offer 1 accepted "bob"] world_pending.

Definition sample_pending : TradeOfferDB.t :=
  TradeOfferDB.mk 1 "alice" "bob" [1; 2] [3] pending None 0 0 None.

Definition sample_accepted : TradeOfferDB.t :=
  TradeOfferDB.mk 1 "alice" "bob" [1; 2] [3] accepted None 0 10 (Some 10).

Lemma world_pending_row : db world_pending !! 1 = Some sample_pending.
Proof. vm_compute. reflexivity. Qed.

Lemma world_accepted_row : db world_accepted !! 1 = Some sample_accepted.
Proof. vm_compute. reflexivity. Qed.

(** The receiver cannot delete the pending sample offer, and alice cannot
    delete it once accepted. *)
Lemma delete_trade_offer_witness :
  db world_pending !! 1 = Some sample_pending ∧
  delete_trade_offer 1 "bob" world_pending = (Raise DeleteUnauthorized, world_pending).
Proof.
  assert (db world_pending !! 1 = Some sample_pending) as Hrow
    by (vm_compute; reflexivity).
  split; [exact Hrow|].
  apply (delete_trade_offer_only_pending_by_proposer 1 "bob" world_pending
           sample_pending Hrow).
  vm_compute. discriminate.
Defined.

Example delete_accepted_by_proposer :
  delete_trade_offer 1 "alice" world_accepted = (Raise InvalidState, world_accepted).
Proof. vm_compute. reflexivity. Qed.

(** ** Creation: the checks on the catalog's verdicts *)

Lemma check_validations_world offer_data validations w :
  snd (check_validations offer_data validations w) = w.
Proof. unfold check_validations. repeat case_decide; done. Qed.

Lemma create_trade_offer_validated env offer_data w validations w1 :
  well_formed_request offer_data →
  validate_items env (TradeOfferCreate.offered_item_ids offer_data
                      ++ TradeOfferCreate.requested_item_ids offer_data) w
  = (Ok validations, w1) →
  create_trade_offer env offer_data w =
  match check_validations offer_data validations w1 with
  | (Ok _, _) => db_insert offer_data w1
  | (Raise e, _) => (Raise e, w1)
  end.
Proof.
  intros Hwf Hv. rewrite create_trade_offer_well_formed by done.
  unfold bind at 1. unfold try_except, bind. rewrite Hv.
  unfold check_validations. repeat case_decide; done.
Qed.

Section OwnershipChecks.
Variable offer_data : TradeOfferCreate.t.
Variable validations : list ValidationResult.

  (** The ids violating each of the four checks, in the order of the
      verdict list. *)
Definition ids_not_found : list Z :=
    map item_id (filter (fun v => exists_ v = false) validations).
Definition ids_inactive : list Z :=
    map item_id (filter (fun v => is_active v = false) validations).
Definition ids_not_of_proposer : list Z :=
    map item_id
      (filter (fun v => item_id v ∈ TradeOfferCreate.offered_item_ids offer_data ∧
                        owner_id v ≠ TradeOfferCreate.proposer_id offer_data)
         validations).
Definition ids_not_of_receiver : list Z :=
    map item_id
      (filter (fun v => item_id v ∈ TradeOfferCreate.requested_item_ids offer_data ∧
                        owner_id v ≠ TradeOfferCreate.receiver_id offer_data)
         validations).

Lemma filter_owner_in_set (ids : list Z) (owner : string) :
    filter (fun v => owner_id v ≠ owner)
      (filter (fun v : ValidationResult => item_id v ∈ set_of ids) validations)
    = filter (fun v => item_id v ∈ ids ∧ owner_id v ≠ owner) validations.
Proof.
    rewrite list_filter_filter. apply list_filter_iff.
    intros v. unfold set_of. rewrite elem_of_list_to_set. tauto.
Qed.

Lemma elem_of_ids_filter (P : ValidationResult → Prop) `{∀ v, Decision (P v)} i :
    i ∈ map item_id (filter P validations) ↔
    ∃ v, v ∈ validations ∧ item_id v = i ∧ P v.
Proof.
    change (map item_id (filter P validations))
      with (item_id <$> filter P validations).
    rewrite list_elem_of_fmap. split.
    - intros (v & -> & Hv). apply list_elem_of_filter in Hv as [HP Hv]. eauto.
    - intros (v & Hv & <- & HP). exists v. split; [done|].
      by apply list_elem_of_filter.
Qed.
End OwnershipChecks.

Lemma map_item_id_nil (l : list ValidationResult) : map item_id l = [] ↔ l = [].
Proof. destruct l; simpl; split; congruence. Qed.

(** C4. When the catalog call of a creation request returns the verdicts
    [validations], the four checks run in the order existence, activity,
    offered items owned by the proposer, requested items owned by the
    receiver: the request fails with the error of the first check that
    some verdict violates (404, 400, 403, 403), later checks are not
    reported, and the error carries the ids of all verdicts violating
    that check; with no violation the offer is stored. *)
Theorem create_trade_offer_first_failing_check
    (env : Env) (offer_data : TradeOfferCreate.t) (w w1 : World)
    (validations : list ValidationResult) :
  well_formed_request offer_data →
  validate_items env (TradeOfferCreate.offered_item_ids offer_data
                      ++ TradeOfferCreate.requested_item_ids offer_data) w
  = (Ok validations, w1) →
  let r := create_trade_offer env offer_data w in
  let not_found := ids_not_found validations in
  let inactive := ids_inactive validations in
  let not_of_proposer := ids_not_of_proposer offer_data validations in
  let not_of_receiver := ids_not_of_receiver offer_data validations in
  (not_found ≠ [] →
   r = (Raise (HTTPException HTTP_404_NOT_FOUND (Items_not_found not_found)), w1)) ∧
  (not_found = [] → inactive ≠ [] →
   r = (Raise (HTTPException HTTP_400_BAD_REQUEST (Items_are_not_active inactive)), w1)) ∧
  (not_found = [] → inactive = [] → not_of_proposer ≠ [] →
   r = (Raise (HTTPException HTTP_403_FORBIDDEN
                 (Proposer_does_not_own_offered_items not_of_proposer)), w1)) ∧
  (not_found = [] → inactive = [] → not_of_proposer = [] → not_of_receiver ≠ [] →
   r = (Raise (HTTPException HTTP_403_FORBIDDEN
                 (Receiver_does_not_own_requested_items not_of_receiver)), w1)) ∧
  (not_found = [] → inactive = [] → not_of_proposer = [] → not_of_receiver = [] →
   r = db_insert offer_data w1) ∧
  (∀ i, i ∈ not_found ↔ ∃ v, v ∈ validations ∧ item_id v = i ∧ exists_ v = false) ∧
  (∀ i, i ∈ inactive ↔ ∃ v, v ∈ validations ∧ item_id v = i ∧ is_active v = false) ∧
  (∀ i, i ∈ not_of_proposer ↔
        ∃ v, v ∈ validations ∧ item_id v = i ∧
             i ∈ TradeOfferCreate.offered_item_ids offer_data ∧
             owner_id v ≠ TradeOfferCreate.proposer_id offer_data) ∧
  (∀ i, i ∈ not_of_receiver ↔
        ∃ v, v ∈ validations ∧ item_id v = i ∧
             i ∈ TradeOfferCreate.requested_item_ids offer_data ∧
             owner_id v ≠ TradeOfferCreate.receiver_id offer_data).
Proof.
  intros Hwf Hv r not_found inactive not_of_proposer not_of_receiver.
  subst r not_found inactive not_of_proposer not_of_receiver.
  rewrite (create_trade_offer_validated env offer_data w validations w1 Hwf Hv).
  unfold ids_not_found, ids_inactive, ids_not_of_proposer, ids_not_of_receiver.
  unfold check_validations, raise, ret.
  rewrite !filter_owner_in_set, !map_item_id_nil.
  split_and!.
  - intros H. by rewrite decide_True.
  - intros H1 H2. rewrite decide_False by (by intros ?). by rewrite decide_True.
  - intros H1 H2 H3. rewrite !decide_False by (by intros ?). by rewrite decide_True.
  - intros H1 H2 H3 H4. rewrite !decide_False by (by intros ?). by rewrite decide_True.
  - intros H1 H2 H3 H4. by rewrite !decide_False by (by intros ?).
  - intros i. apply elem_of_ids_filter.
  - intros i. apply elem_of_ids_filter.
  - intros i. rewrite elem_of_ids_filter.
    split; intros (v & Hin & Hid & HP); exists v; subst i; tauto.
  - intros i. rewrite elem_of_ids_filter.
    split; intros (v & Hin & Hid & HP); exists v; subst i; tauto.
Qed.

(** Items 1 (unknown) and 2 (inactive) offered, item 3 (of a third user)
    requested: all three later checks are violated too, the error is the
    404 and lists the unknown id only. *)
Lemma create_trade_offer_first_failing_check_witness :
  let catalog := [ {| item_id := 1; exists_ := false; is_active := false; owner_id := "" |};
                   {| item_id := 2; exists_ := true; is_active := false; owner_id := "carol" |};
                   {| item_id := 3; exists_ := true; is_active := true; owner_id := "carol" |} ] in
  let env := {| catalog_ValidateItems := fun _ _ => Ok catalog;
                notifications_post := fun _ _ => Raise RequestError;
                chat_rooms_post := fun _ _ => Raise RequestError |} in
  well_formed_request sample_offer ∧
  fst (validate_items env [1; 2; 3] (initial_world 0)) = Ok catalog ∧
  fst (create_trade_offer env sample_offer (initial_world 0))
  = Raise (HTTPException HTTP_404_NOT_FOUND (Items_not_found [1])).
Proof.
  intros catalog env.
  assert (well_formed_request sample_offer) as Hwf.
  { unfold well_formed_request, sample_offer; simpl. split_and!.
    - discriminate.
    - apply (bool_decide_unpack _). vm_compute. reflexivity.
    - apply (bool_decide_unpack _). vm_compute. reflexivity.
    - intros x Ho Hr. apply list_elem_of_singleton in Hr. subst x.
      revert Ho. apply (bool_decide_unpack _). vm_compute. reflexivity. }
  split; [exact Hwf|]. split; [vm_compute; reflexivity|].
  pose proof (create_trade_offer_first_failing_check env sample_offer
                (initial_world 0)
                (snd (validate_items env [1; 2; 3] (initial_world 0)))
                catalog Hwf) as H.
  simpl in H. destruct H as (H & _); [vm_compute; reflexivity|].
  rewrite H; [reflexivity|]. vm_compute. discriminate.
Defined.

(** ** Status updates *)

(** The transitions [check_transition] lets through, by role. *)
Definition allowed_for_proposer (current new_status : TradeOfferStatus) : Prop :=
  (current = pending ∧ new_status = cancelled) ∨
  (current = accepted ∧ new_status = completed).

Definition allowed_for_receiver (current new_status : TradeOfferStatus) : Prop :=
  (current = pending ∧ (new_status = accepted ∨ new_status = rejected)) ∨
  (current = accepted ∧ new_status = completed).

Lemma check_transition_world db_offer new_status user_id w :
  snd (check_transition db_offer new_status user_id w) = w.
Proof. unfold check_transition. repeat case_decide; done. Qed.

Lemma check_transition_proposer db_offer new_status w :
  fst (check_transition db_offer new_status (TradeOfferDB.proposer_id db_offer) w) =
  if decide (allowed_for_proposer (TradeOfferDB.status db_offer) new_status)
  then Ok tt
  else Raise (HTTPException HTTP_400_BAD_REQUEST Invalid_status_transition_for_proposer).
Proof.
  unfold check_transition, allowed_for_proposer.
  rewrite decide_True by done.
  repeat case_decide; simpl; try done; tauto.
Qed.

Lemma check_transition_receiver db_offer new_status w :
  TradeOfferDB.receiver_id db_offer ≠ TradeOfferDB.proposer_id db_offer →
  fst (check_transition db_offer new_status (TradeOfferDB.receiver_id db_offer) w) =
  if decide (allowed_for_receiver (TradeOfferDB.status db_offer) new_status)
  then Ok tt
  else Raise (HTTPException HTTP_400_BAD_REQUEST Invalid_status_transition_for_receiver).
Proof.
  intros Hne. unfold check_transition, allowed_for_receiver.
  rewrite decide_False by done. rewrite decide_True by done.
  destruct (TradeOfferDB.status db_offer), new_status;
    repeat case_decide; simpl; try done;
    try (exfalso; set_solver); try (exfalso; naive_solver).
Qed.

Lemma check_transition_stranger db_offer new_status user_id w :
  user_id ≠ TradeOfferDB.proposer_id db_offer →
  user_id ≠ TradeOfferDB.receiver_id db_offer →
  fst (check_transition db_offer new_status user_id w) = Raise Unauthorized.
Proof. intros H1 H2. unfold check_transition. by rewrite !decide_False by done. Qed.

(** A rejected request leaves the world as it was. *)
Lemma update_trade_offer_status_rejected env offer_id new_status user_id w db_offer e :
  db w !! offer_id = Some db_offer →
  fst (check_transition db_offer new_status user_id w) = Raise e →
  update_trade_offer_status env offer_id new_status user_id w = (Raise e, w).
Proof.
  intros Hdb Hc. unfold update_trade_offer_status, bind at 1. unfold get_or_404.
  rewrite Hdb. unfold bind at 1.
  pose proof (check_transition_world db_offer new_status user_id w) as Hw.
  destruct (check_transition db_offer new_status user_id w) as [[[]|e'] w0];
    simpl in *; congruence.
Qed.

(** An admitted request commits the new row, then runs the side effects,
    then returns the committed row. *)
Lemma update_trade_offer_status_committed env offer_id new_status user_id w db_offer :
  db w !! offer_id = Some db_offer →
  fst (check_transition db_offer new_status user_id w) = Ok tt →
  ∃ w',
    update_trade_offer_status env offer_id new_status user_id w
    = (fst (db_update_status db_offer new_status w), w') ∧
    effects_only (snd (db_update_status db_offer new_status w)) w'.
Proof.
  intros Hdb Hc. unfold update_trade_offer_status, bind at 1. unfold get_or_404.
  rewrite Hdb. unfold bind at 1.
  pose proof (check_transition_world db_offer new_status user_id w) as Hw.
  destruct (check_transition db_offer new_status user_id w) as [[[]|e'] w0];
    simpl in *; [subst w0|congruence].
  unfold bind at 1.
  destruct (db_update_status db_offer new_status w) as [r w1] eqn:Hu.
  unfold db_update_status in Hu. injection Hu as <- Hw1.
  set (updated := TradeOfferDB.mk _ _ _ _ _ _ _ _ _ _) in *.
  unfold bind at 1.
  pose proof (send_trade_notification_returns env updated new_status user_id w1) as Hn.
  pose proof (dispatch_only_send_trade_notification env updated new_status user_id w1)
    as Hn'.
  destruct (send_trade_notification env updated new_status user_id w1) as [[[]|?] w2];
    simpl in *; [|done].
  unfold bind, ret. case_decide.
  - destruct (create_chat_room_returns env updated w2) as [room Hr].
    pose proof (dispatch_only_create_chat_room env updated w2) as Hr'.
    destruct (create_chat_room env updated w2) as [[?|?] w3]; simpl in *; [|done].
    eexists. split; [done|]. rewrite Hw1. by eapply effects_only_trans.
  - eexists. split; [done|]. by rewrite Hw1.
Qed.

(** ** Invariants of the table *)

(** What holds of every row of every reachable world: the row is stored
    under its id, ids are below the id counter, the two parties differ,
    and [responded_at] is null exactly while the offer is pending or
    cancelled. *)
Record row_ok (w : World) (k : Z) (o : TradeOfferDB.t) : Prop := {
  row_id : TradeOfferDB.id o = k;
  row_below_next_id : k < next_id w;
  row_parties : TradeOfferDB.proposer_id o ≠ TradeOfferDB.receiver_id o;
  row_responded_at :
    TradeOfferDB.responded_at o = None ↔
    TradeOfferDB.status o = pending ∨ TradeOfferDB.status o = cancelled
}.

Definition store_ok (w : World) : Prop :=
  ∀ k o, db w !! k = Some o → row_ok w k o.

Lemma store_ok_effects_only w w' : effects_only w w' → store_ok w → store_ok w'.
Proof.
  intros [Hdb Hn _] Hok k o Hk. rewrite Hdb in Hk.
  destruct (Hok k o Hk). split; try done. by rewrite Hn.
Qed.

Lemma store_ok_db_insert offer_data w :
  well_formed_request offer_data → store_ok w →
  store_ok (snd (db_insert offer_data w)).
Proof.
  intros (Hne & _) Hok k o. unfold db_insert; simpl.
  destruct (decide (next_id w = k)) as [<-|Hk].
  - rewrite lookup_insert_eq. intros [= <-]. split; simpl; try done; [lia|].
    split; [by left|done].
  - rewrite lookup_insert_ne by done. intros Ho.
    destruct (Hok k o Ho). split; try done. simpl. lia.
Qed.

Lemma create_trade_offer_world env offer_data w :
  effects_only w (snd (create_trade_offer env offer_data w)) ∨
  (well_formed_request offer_data ∧
   ∃ w1, effects_only w w1 ∧
         create_trade_offer env offer_data w = db_insert offer_data w1).
Proof.
  unfold create_trade_offer.
  case_decide as Hne; [left; apply effects_only_refl|].
  case_decide as Ho; [left; apply effects_only_refl|].
  case_decide as Hr; [left; apply effects_only_refl|].
  case_decide as Hi; [left; apply effects_only_refl|].
  assert (well_formed_request offer_data) as Hwf.
  { apply size_set_of_NoDup in Ho, Hr. split_and!; try done.
    intros x H1 H2. revert Hi. apply set_of_overlap. eauto. }
  unfold bind at 1. unfold try_except, bind.
  pose proof (dispatch_only_validate_items env
                (TradeOfferCreate.offered_item_ids offer_data
                 ++ TradeOfferCreate.requested_item_ids offer_data) w) as Hv.
  destruct (validate_items env _ w) as [[validations|e] w1]; simpl in Hv.
  - pose proof (check_validations_world offer_data validations w1) as Hc.
    destruct (check_validations offer_data validations w1) as [[[]|e] w2];
      simpl in Hc; subst w2.
    + right. split; [done|]. by exists w1.
    + left. unfold check_validations, raise, ret in *.
      by destruct e.
  - left. by destruct e.
Qed.

Lemma store_ok_exec env r w : store_ok w → store_ok (exec env r w).
Proof.
  intros Hok. destruct r as [offer_data|offer_id new_status user_id|offer_id user_id|s];
    simpl.
  - destruct (create_trade_offer_world env offer_data w)
      as [He|(Hwf & w1 & He & ->)].
    + by eapply store_ok_effects_only.
    + apply store_ok_db_insert; [done|]. by eapply store_ok_effects_only.
  - destruct (db w !! offer_id) as [db_offer|] eqn:Hdb.
    + destruct (fst (check_transition db_offer new_status user_id w)) as [[]|e] eqn:Hc.
      * destruct (update_trade_offer_status_committed env offer_id new_status
                    user_id w db_offer Hdb Hc) as (w' & -> & He).
        simpl. eapply store_ok_effects_only; [exact He|].
        destruct (Hok _ _ Hdb) as [Hid Hlt Hp Hresp].
        intros k o. unfold db_update_status; simpl. rewrite Hid.
        destruct (decide (offer_id = k)) as [<-|Hk].
        -- rewrite lookup_insert_eq. intros [= <-]. split; simpl; try done.
           unfold check_transition in Hc.
           destruct (TradeOfferDB.status db_offer), new_status;
             repeat case_decide; simpl in *; try done;
             try (exfalso; set_solver); try naive_solver.
        -- rewrite lookup_insert_ne by done. intros Ho.
           destruct (Hok k o Ho). by split.
      * by rewrite (update_trade_offer_status_rejected env offer_id new_status
                      user_id w db_offer e Hdb Hc).
    + unfold update_trade_offer_status, bind, get_or_404. by rewrite Hdb.
  - unfold delete_trade_offer, bind, get_or_404.
    destruct (db w !! offer_id) as [db_offer|] eqn:Hdb; [|done].
    repeat case_decide; try done. simpl.
    intros k o Hk. simpl in Hk. apply lookup_delete_Some in Hk as [_ Hk].
    destruct (Hok k o Hk). by split.
  - intros k o Hk. destruct (Hok k o Hk). by split.
Qed.

Lemma reachable_store_ok env w : reachable env w → store_ok w.
Proof.
  induction 1 as [t0|w r _ IH]; [|by apply store_ok_exec].
  intros k o Hk. simpl in Hk. by rewrite lookup_empty in Hk.
Qed.

Lemma update_trade_offer_status_result env offer_id new_status user_id w db_offer :
  db w !! offer_id = Some db_offer →
  match fst (check_transition db_offer new_status user_id w) with
  | Ok _ => is_ok (fst (update_trade_offer_status env offer_id new_status user_id w)) = true
  | Raise e => update_trade_offer_status env offer_id new_status user_id w = (Raise e, w)
  end.
Proof.
  intros Hdb.
  destruct (fst (check_transition db_offer new_status user_id w)) as [[]|e] eqn:Hc.
  - destruct (update_trade_offer_status_committed env offer_id new_status user_id w
                db_offer Hdb Hc) as (w' & -> & _).
    done.
  - by apply update_trade_offer_status_rejected with db_offer.
Qed.

(** C1. For a stored offer and a status-update request: the proposer
    succeeds exactly for pending -> cancelled and accepted -> completed;
    the receiver exactly for pending -> accepted, pending -> rejected and
    accepted -> completed; a user who is neither party gets the 403
    [Unauthorized]; every other request of a party gets a 400 invalid
    transition; so nothing succeeds on a rejected, cancelled or completed
    offer. *)
Theorem update_trade_offer_status_transitions
    (env : Env) (w : World) (offer_id : Z) (db_offer : TradeOfferDB.t)
    (new_status : TradeOfferStatus) (user_id : string) :
  reachable env w →
  db w !! offer_id = Some db_offer →
  let r := fst (update_trade_offer_status env offer_id new_status user_id w) in
  let current := TradeOfferDB.status db_offer in
  (user_id = TradeOfferDB.proposer_id db_offer →
   (is_ok r = true ↔ allowed_for_proposer current new_status)) ∧
  (user_id = TradeOfferDB.receiver_id db_offer →
   (is_ok r = true ↔ allowed_for_receiver current new_status)) ∧
  (user_id ≠ TradeOfferDB.proposer_id db_offer →
   user_id ≠ TradeOfferDB.receiver_id db_offer →
   r = Raise Unauthorized) ∧
  (user_id = TradeOfferDB.proposer_id db_offer ∨
   user_id = TradeOfferDB.receiver_id db_offer →
   is_ok r = false → ∃ e, r = Raise e ∧ InvalidTransition e) ∧
  (current = rejected ∨ current = cancelled ∨ current = completed →
   is_ok r = false).
Proof.
  intros Hreach Hdb r current. subst r current.
  destruct (reachable_store_ok env w Hreach offer_id db_offer Hdb) as [_ _ Hparties _].
  pose proof (update_trade_offer_status_result env offer_id new_status user_id w
                db_offer Hdb) as Hres.
  assert (∀ u, u = TradeOfferDB.proposer_id db_offer ∨
               u = TradeOfferDB.receiver_id db_offer →
          fst (check_transition db_offer new_status u w) =
          if decide (u = TradeOfferDB.proposer_id db_offer) then
            if decide (allowed_for_proposer (TradeOfferDB.status db_offer) new_status)
            then Ok tt
            else Raise (HTTPException HTTP_400_BAD_REQUEST
                          Invalid_status_transition_for_proposer)
          else
            if decide (allowed_for_receiver (TradeOfferDB.status db_offer) new_status)
            then Ok tt
            else Raise (HTTPException HTTP_400_BAD_REQUEST
                          Invalid_status_transition_for_receiver)) as Hparty.
  { intros u [->| ->].
    - rewrite decide_True by done. apply check_transition_proposer.
    - rewrite decide_False by done. by apply check_transition_receiver. }
  split_and!.
  - intros ->. rewrite Hparty in Hres by (by left).
    rewrite decide_True in Hres by done.
    destruct (decide (allowed_for_proposer _ _)) as [Ha|Ha]; [done|].
    rewrite Hres. simpl. split; [done|tauto].
  - intros ->. rewrite Hparty in Hres by (by right).
    rewrite decide_False in Hres by done.
    destruct (decide (allowed_for_receiver _ _)) as [Ha|Ha]; [done|].
    rewrite Hres. simpl. split; [done|tauto].
  - intros H1 H2. rewrite check_transition_stranger in Hres by done.
    by rewrite Hres.
  - intros Hu Hfail. rewrite (Hparty _ Hu) in Hres. clear Hparty.
    destruct (decide (user_id = _)) as [Hp|Hp].
    + destruct (decide (allowed_for_proposer _ _)) as [Ha|Ha]; [congruence|].
      rewrite Hres. simpl. eexists. split; [done|by left].
    + destruct (decide (allowed_for_receiver _ _)) as [Ha|Ha]; [congruence|].
      rewrite Hres. simpl. eexists. split; [done|by right].
  - intros Hterminal.
    destruct (decide (user_id = TradeOfferDB.proposer_id db_offer)) as [Hp|Hp];
      [|destruct (decide (user_id = TradeOfferDB.receiver_id db_offer)) as [Hr|Hr]].
    + rewrite Hparty in Hres by (by left). rewrite decide_True in Hres by done.
      destruct (decide (allowed_for_proposer _ _)) as [Ha|Ha]; [|by rewrite Hres].
      unfold allowed_for_proposer in Ha. exfalso.
      destruct Hterminal as [H|[H|H]]; rewrite H in Ha; naive_solver.
    + rewrite Hparty in Hres by (by right). rewrite decide_False in Hres by done.
      destruct (decide (allowed_for_receiver _ _)) as [Ha|Ha]; [|by rewrite Hres].
      unfold allowed_for_receiver in Ha. exfalso.
      destruct Hterminal as [H|[H|H]]; rewrite H in Ha; naive_solver.
    + rewrite check_transition_stranger in Hres by done. by rewrite Hres.
Qed.

(** On the pending sample offer, bob (the receiver) may accept. *)
Lemma update_trade_offer_status_transitions_witness :
  reachable sample_env world_pending ∧
  db world_pending !! 1 = Some sample_pending ∧
  is_ok (fst (update_trade_offer_status sample_env 1 accepted "bob" world_pending))
  = true.
Proof.
  assert (reachable sample_env world_pending) as Hreach
    by apply reachable_exec, reachable_init.
  assert (db world_pending !! 1 = Some sample_pending) as Hrow
    by (vm_compute; reflexivity).
  split; [exact Hreach|]. split; [exact Hrow|].
  apply (update_trade_offer_status_transitions sample_env world_pending 1
           sample_pending accepted "bob" Hreach Hrow).
  - reflexivity.
  - left. split; [reflexivity|]. by left.
Defined.

(** An allowed request, in the words of the transition table. *)
Definition allowed (db_offer : TradeOfferDB.t) (new_status : TradeOfferStatus)
    (user_id : string) : Prop :=
  (user_id = TradeOfferDB.proposer_id db_offer ∧
   allowed_for_proposer (TradeOfferDB.status db_offer) new_status) ∨
  (user_id = TradeOfferDB.receiver_id db_offer ∧
   allowed_for_receiver (TradeOfferDB.status db_offer) new_status).

Lemma allowed_check_transition db_offer new_status user_id w :
  TradeOfferDB.proposer_id db_offer ≠ TradeOfferDB.receiver_id db_offer →
  allowed db_offer new_status user_id →
  fst (check_transition db_offer new_status user_id w) = Ok tt.
Proof.
  intros Hne [[-> Ha]|[-> Ha]].
  - rewrite check_transition_proposer. by rewrite decide_True.
  - rewrite check_transition_receiver by done. by rewrite decide_True.
Qed.

(** C3. For every allowed transition and whatever the notification and
    chat services answer (so also when both are down), the operation
    returns the updated row; the commit of the new status (and of
    [responded_at] for accept / reject) is the first event the operation
    adds to the trace, everything after it is a remote call or a wait,
    and the committed row is still the stored row when the operation
    returns. *)
Theorem update_trade_offer_status_commits_before_side_effects
    (env : Env) (w : World) (offer_id : Z) (db_offer : TradeOfferDB.t)
    (new_status : TradeOfferStatus) (user_id : string) :
  reachable env w →
  db w !! offer_id = Some db_offer →
  allowed db_offer new_status user_id →
  ∃ updated w' dispatched,
    update_trade_offer_status env offer_id new_status user_id w = (Ok updated, w') ∧
    TradeOfferDB.status updated = new_status ∧
    TradeOfferDB.responded_at updated
    = (if decide (new_status = accepted ∨ new_status = rejected)
       then Some (now w) else TradeOfferDB.responded_at db_offer) ∧
    db w' !! offer_id = Some updated ∧
    trace w' = trace w ++ EvCommit updated :: dispatched ∧
    Forall is_dispatch dispatched.
Proof.
  intros Hreach Hdb Hallowed.
  destruct (reachable_store_ok env w Hreach offer_id db_offer Hdb) as [Hid _ Hparties _].
  pose proof (allowed_check_transition db_offer new_status user_id w Hparties Hallowed)
    as Hc.
  destruct (update_trade_offer_status_committed env offer_id new_status user_id w
              db_offer Hdb Hc) as (w' & Hu & [Hdb' _ (evs & Htr & Hevs)]).
  unfold db_update_status in *. simpl in *.
  eexists _, w', evs. split; [exact Hu|]. simpl. split_and!.
  - done.
  - destruct new_status; repeat case_decide; try done;
      try (exfalso; set_solver); try (exfalso; naive_solver).
  - rewrite Hdb', Hid. apply lookup_insert_eq.
  - by rewrite Htr, <- app_assoc.
  - done.
Qed.

(** Bob accepts the pending sample offer while the notification and the
    chat service are both down: the request succeeds, the row is
    accepted with [responded_at] set, and the trace shows the commit
    followed by three notification attempts and three chat-room
    attempts. *)
Lemma update_trade_offer_status_commits_witness :
  reachable sample_env world_pending ∧
  db world_pending !! 1 = Some sample_pending ∧
  allowed sample_pending accepted "bob" ∧
  ∃ updated w' dispatched,
    update_trade_offer_status sample_env 1 accepted "bob" world_pending
    = (Ok updated, w') ∧
    TradeOfferDB.status updated = accepted ∧
    TradeOfferDB.responded_at updated = Some 0 ∧
    db w' !! 1 = Some updated ∧
    trace w' = trace world_pending ++ EvCommit updated :: dispatched ∧
    Forall is_dispatch dispatched.
Proof.
  assert (reachable sample_env world_pending) as Hreach
    by apply reachable_exec, reachable_init.
  assert (db world_pending !! 1 = Some sample_pending) as Hrow
    by (vm_compute; reflexivity).
  assert (allowed sample_pending accepted "bob") as Hallowed.
  { right. split; [reflexivity|]. left. split; [reflexivity|]. by left. }
  split; [exact Hreach|]. split; [exact Hrow|]. split; [exact Hallowed|].
  exact (update_trade_offer_status_commits_before_side_effects sample_env
           world_pending 1 sample_pending accepted "bob" Hreach Hrow Hallowed).
Defined.

Example accept_with_both_services_down :
  drop 2 (trace world_accepted) =
  let n := {| user_id := "alice"; related_offer_id := 1; related_user_id := "bob";
              type_ := "trade_offer_accepted"; title := "Trade Offer Accepted! 🎉";
              body := "Great news! Your trade offer has been accepted." |} in
  let c := {| trade_offer_id := 1; user1_id := "alice"; user2_id := "bob" |} in
  [EvCommit sample_accepted;
   EvNotification n; EvSleep 1; EvNotification n; EvSleep 2; EvNotification n;
   EvChatRoom c; EvSleep 1; EvChatRoom c; EvSleep 2; EvChatRoom c].
Proof. vm_compute. reflexivity. Qed.

(** C10. A successful status update changes no field of the offer other
    than [status], [responded_at] and [updated_at]: the returned row,
    which is the row stored after the operation, has the id, the
    parties, the two item lists, the message and [created_at] of the
    row stored before it. *)
Theorem update_trade_offer_status_frame
    (env : Env) (w w' : World) (offer_id : Z) (db_offer updated : TradeOfferDB.t)
    (new_status : TradeOfferStatus) (user_id : string) :
  reachable env w →
  db w !! offer_id = Some db_offer →
  update_trade_offer_status env offer_id new_status user_id w = (Ok updated, w') →
  db w' !! offer_id = Some updated ∧
  TradeOfferDB.id updated = TradeOfferDB.id db_offer ∧
  TradeOfferDB.proposer_id updated = TradeOfferDB.proposer_id db_offer ∧
  TradeOfferDB.receiver_id updated = TradeOfferDB.receiver_id db_offer ∧
  TradeOfferDB.offered_item_ids updated = TradeOfferDB.offered_item_ids db_offer ∧
  TradeOfferDB.requested_item_ids updated = TradeOfferDB.requested_item_ids db_offer ∧
  TradeOfferDB.message updated = TradeOfferDB.message db_offer ∧
  TradeOfferDB.created_at updated = TradeOfferDB.created_at db_offer.
Proof.
  intros Hreach Hdb Hu.
  destruct (reachable_store_ok env w Hreach offer_id db_offer Hdb) as [Hid _ _ _].
  pose proof (update_trade_offer_status_result env offer_id new_status user_id w
                db_offer Hdb) as Hres.
  destruct (fst (check_transition db_offer new_status user_id w)) as [[]|e] eqn:Hc;
    [|congruence].
  destruct (update_trade_offer_status_committed env offer_id new_status user_id w
              db_offer Hdb Hc) as (w'' & Hu' & [Hdb' _ _]).
  rewrite Hu in Hu'. injection Hu' as Hupd <-.
  unfold db_update_status in *. simpl in *. subst updated.
  split_and!; try done.
  rewrite Hdb', Hid. apply lookup_insert_eq.
Qed.

Lemma update_trade_offer_status_frame_witness :
  reachable sample_env world_pending ∧
  db world_pending !! 1 = Some sample_pending ∧
  ∃ updated w',
    update_trade_offer_status sample_env 1 cancelled "alice" world_pending
    = (Ok updated, w') ∧
    TradeOfferDB.offered_item_ids updated = [1; 2] ∧
    TradeOfferDB.requested_item_ids updated = [3] ∧
    TradeOfferDB.proposer_id updated = "alice" ∧
    TradeOfferDB.receiver_id updated = "bob".
Proof.
  assert (reachable sample_env world_pending) as Hreach
    by apply reachable_exec, reachable_init.
  assert (db world_pending !! 1 = Some sample_pending) as Hrow
    by (vm_compute; reflexivity).
  split; [exact Hreach|]. split; [exact Hrow|].
  destruct (update_trade_offer_status sample_env 1 cancelled "alice" world_pending)
    as [[updated|e] w'] eqn:Hu; [|vm_compute in Hu; discriminate].
  exists updated, w'. split; [reflexivity|].
  destruct (update_trade_offer_status_frame sample_env world_pending w' 1
              sample_pending updated cancelled "alice" Hreach Hrow Hu)
    as (_ & _ & Hp & Hr & Ho & Hq & _).
  by rewrite Hp, Hr, Ho, Hq.
Defined.

(** ** [responded_at] *)

Lemma check_transition_ok_cases db_offer new_status user_id w :
  fst (check_transition db_offer new_status user_id w) = Ok tt →
  (TradeOfferDB.status db_offer = pending ∧
   (new_status = cancelled ∨ new_status = accepted ∨ new_status = rejected)) ∨
  (TradeOfferDB.status db_offer = accepted ∧ new_status = completed).
Proof.
  unfold check_transition.
  destruct (TradeOfferDB.status db_offer), new_status;
    repeat case_decide; simpl; try done; try tauto;
    try (intros _; exfalso; set_solver); try (intros _; exfalso; naive_solver).
Qed.

(** What one request does to a stored row: nothing, or it deletes the
    row (then the row was pending), or it is an admitted status update
    of that row. *)
Lemma exec_row env r w k o :
  store_ok w → db w !! k = Some o →
  db (exec env r w) !! k = Some o ∨
  (db (exec env r w) !! k = None ∧ TradeOfferDB.status o = pending) ∨
  (∃ new_status user_id o',
     fst (check_transition o new_status user_id w) = Ok tt ∧
     fst (db_update_status o new_status w) = Ok o' ∧
     db (exec env r w) !! k = Some o').
Proof.
  intros Hok Hk. destruct (Hok k o Hk) as [Hid Hlt _ _].
  destruct r as [offer_data|offer_id new_status user_id|offer_id user_id|s]; simpl.
  - left. destruct (create_trade_offer_world env offer_data w)
      as [[Hdb _ _]|(Hwf & w1 & [Hdb Hn _] & ->)].
    + by rewrite Hdb.
    + unfold db_insert; simpl. rewrite lookup_insert_ne by lia. by rewrite Hdb.
  - destruct (db w !! offer_id) as [db_offer|] eqn:Hdb.
    + destruct (fst (check_transition db_offer new_status user_id w)) as [[]|e] eqn:Hc.
      * destruct (update_trade_offer_status_committed env offer_id new_status
                    user_id w db_offer Hdb Hc) as (w' & -> & [Hdb' _ _]).
        destruct (Hok _ _ Hdb) as [Hid' _ _ _].
        simpl. rewrite Hdb'. unfold db_update_status; simpl.
        destruct (decide (offer_id = k)) as [->|Hne].
        -- right. right. assert (db_offer = o) as -> by congruence.
           eexists new_status, user_id, _. split; [done|]. split; [done|].
           rewrite <- Hid'. apply lookup_insert_eq.
        -- left. rewrite Hid'. by rewrite lookup_insert_ne.
      * left. by rewrite (update_trade_offer_status_rejected env offer_id new_status
                            user_id w db_offer e Hdb Hc).
    + left. unfold update_trade_offer_status, bind, get_or_404. by rewrite Hdb.
  - unfold delete_trade_offer, bind, get_or_404.
    destruct (db w !! offer_id) as [db_offer|] eqn:Hdb; [|by left].
    repeat case_decide; try (by left). simpl.
    destruct (decide (offer_id = k)) as [->|Hne].
    + right. left. rewrite lookup_delete_eq. split; [done|]. congruence.
    + left. by rewrite lookup_delete_ne.
  - by left.
Qed.

Lemma exec_row_responded_at env r w k o o' :
  store_ok w → db w !! k = Some o → db (exec env r w) !! k = Some o' →
  (TradeOfferDB.status o = pending ∧
   (TradeOfferDB.status o' = accepted ∨ TradeOfferDB.status o' = rejected) →
   TradeOfferDB.responded_at o' = Some (now w)) ∧
  (¬ (TradeOfferDB.status o = pending ∧
      (TradeOfferDB.status o' = accepted ∨ TradeOfferDB.status o' = rejected)) →
   TradeOfferDB.responded_at o' = TradeOfferDB.responded_at o).
Proof.
  intros Hok Hk Hk'.
  destruct (exec_row env r w k o Hok Hk)
    as [H|[[H _]|(new_status & user_id & o'' & Hc & Hu & H)]];
    rewrite H in Hk'; [| done |].
  - injection Hk' as <-. split; [|done]. intros [-> [?|?]]; congruence.
  - injection Hk' as ->. unfold db_update_status in Hu. simpl in Hu.
    injection Hu as <-. simpl.
    apply check_transition_ok_cases in Hc.
    destruct new_status; repeat case_decide; split; try done;
      try (exfalso; set_solver); naive_solver.
Qed.

Lemma store_ok_run env requests w : store_ok w → store_ok (run env requests w).
Proof.
  revert w. induction requests as [|r requests IH]; intros w Hok; [done|].
  simpl. by apply IH, store_ok_exec.
Qed.

Lemma run_responded_at_kept env requests w k o t :
  store_ok w → db w !! k = Some o → TradeOfferDB.responded_at o = Some t →
  ∃ o', db (run env requests w) !! k = Some o' ∧
        TradeOfferDB.responded_at o' = Some t.
Proof.
  revert w o. induction requests as [|r requests IH]; intros w o Hok Hk Ht;
    [by exists o|].
  simpl. destruct (Hok k o Hk) as [_ _ _ Hresp].
  assert (TradeOfferDB.status o ≠ pending) as Hnp.
  { intros Hp. assert (TradeOfferDB.responded_at o = None) by (apply Hresp; by left).
    congruence. }
  destruct (db (exec env r w) !! k) as [o1|] eqn:Hk1.
  - apply (IH (exec env r w) o1); [by apply store_ok_exec|done|].
    destruct (exec_row_responded_at env r w k o o1 Hok Hk Hk1) as [_ Hkeep].
    rewrite Hkeep; [done|]. intros [? _]. done.
  - destruct (exec_row env r w k o Hok Hk) as [H|[[_ H]|(? & ? & ? & _ & _ & H)]];
      congruence.
Qed.

(** C2. For every stored offer: [responded_at] is null exactly while the
    offer is pending or cancelled; a request that takes the offer from
    pending to accepted or rejected sets it (to the time of the
    request), every other request leaves it as it is; and once it is
    set, it keeps its value, and the offer stays stored, through any
    sequence of later requests (accepted -> completed among them). *)
Theorem responded_at_set_exactly_once
    (env : Env) (w : World) (offer_id : Z) (db_offer : TradeOfferDB.t) :
  reachable env w →
  db w !! offer_id = Some db_offer →
  (TradeOfferDB.responded_at db_offer = None ↔
   TradeOfferDB.status db_offer = pending ∨ TradeOfferDB.status db_offer = cancelled) ∧
  (∀ r o', db (exec env r w) !! offer_id = Some o' →
     (TradeOfferDB.status db_offer = pending ∧
      (TradeOfferDB.status o' = accepted ∨ TradeOfferDB.status o' = rejected) →
      TradeOfferDB.responded_at db_offer = None ∧
      TradeOfferDB.responded_at o' = Some (now w)) ∧
     (¬ (TradeOfferDB.status db_offer = pending ∧
         (TradeOfferDB.status o' = accepted ∨ TradeOfferDB.status o' = rejected)) →
      TradeOfferDB.responded_at o' = TradeOfferDB.responded_at db_offer)) ∧
  (∀ t requests, TradeOfferDB.responded_at db_offer = Some t →
     ∃ o', db (run env requests w) !! offer_id = Some o' ∧
           TradeOfferDB.responded_at o' = Some t).
Proof.
  intros Hreach Hdb. pose proof (reachable_store_ok env w Hreach) as Hok.
  destruct (Hok offer_id db_offer Hdb) as [_ _ _ Hresp].
  split; [exact Hresp|]. split.
  - intros r o' Ho'.
    destruct (exec_row_responded_at env r w offer_id db_offer o' Hok Hdb Ho')
      as [Hset Hkeep].
    split; [|exact Hkeep]. intros Hp. split; [|by apply Hset].
    apply Hresp. left. by destruct Hp.
  - intros t requests Ht. by apply run_responded_at_kept with db_offer.
Qed.

(** The accepted sample offer has [responded_at = 10]; completing it
    later, and any further attempt, keeps that value. *)
Lemma responded_at_set_exactly_once_witness :
  reachable sample_env world_accepted ∧
  db world_accepted !! 1 = Some sample_accepted ∧
  ∃ o', db (run sample_env [Elapse 50; PATCH_offer 1 completed "alice";
                            PATCH_offer 1 rejected "bob"] world_accepted) !! 1
        = Some o' ∧
        TradeOfferDB.responded_at o' = Some 10.
Proof.
  assert (reachable sample_env world_accepted) as Hreach
    by (repeat apply reachable_exec; apply reachable_init).
  assert (db world_accepted !! 1 = Some sample_accepted) as Hrow
    by (vm_compute; reflexivity).
  split; [exact Hreach|]. split; [exact Hrow|].
  apply (responded_at_set_exactly_once sample_env world_accepted 1 sample_accepted
           Hreach Hrow).
  reflexivity.
Defined.

Example completed_keeps_responded_at :
  db (run sample_env [Elapse 50; PATCH_offer 1 completed "alice"] world_accepted) !! 1
  = Some (TradeOfferDB.mk 1 "alice" "bob" [1; 2] [3] completed None 0 66 (Some 10)).
Proof. vm_compute. reflexivity. Qed.

(** ** Retry *)

Lemma wait_exponential_backoff (n : nat) :
  (1 ≤ n)%nat →
  wait_exponential 1 1 10 n = Z.min 10 (1 * 2 ^ (Z.of_nat n - 1)) ∧
  1 ≤ wait_exponential 1 1 10 n ≤ 10.
Proof.
  intros Hn. unfold wait_exponential.
  pose proof (Z.pow_pos_nonneg 2 (Z.of_nat n - 1)). lia.
Qed.

Lemma with_retry_invocations {A} retry (operation : M A) w :
  (1 ≤ invocations (with_retry retry operation w) ≤ 3)%nat.
Proof.
  unfold with_retry, retrying. simpl.
  destruct (operation w) as [[a|e] w1]; simpl; [lia|].
  destruct (retry e); simpl; [|lia].
  destruct (operation _) as [[a2|e2] w2]; simpl; [lia|].
  destruct (retry e2); simpl; [|lia].
  destruct (operation _) as [[a3|e3] w3]; simpl; [lia|].
  destruct (retry e3); simpl; lia.
Qed.

Lemma with_retry_waits {A} retry (operation : M A) w :
  waits (with_retry retry operation w)
  = map (wait_exponential 1 1 10)
      (seq 1 (invocations (with_retry retry operation w) - 1)).
Proof.
  unfold with_retry, retrying. simpl.
  destruct (operation w) as [[a|e] w1]; simpl; [done|].
  destruct (retry e); simpl; [|done].
  destruct (operation _) as [[a2|e2] w2]; simpl; [done|].
  destruct (retry e2); simpl; [|done].
  destruct (operation _) as [[a3|e3] w3]; simpl; [done|].
  destruct (retry e3); simpl; done.
Qed.

(** C6. For the two retry policies of the sources (on [grpc.RpcError]
    for the catalog client, on [httpx.RequestError] / [HTTPStatusError]
    for the HTTP client) and every operation they wrap: after two
    retryable failures and a success the wrapper returns the success
    with exactly 3 invocations, having waited 1s and 2s; the operation
    is never invoked more than 3 times; an error that is not retryable,
    and in particular a circuit-open failure, is surfaced after exactly
    one invocation; the wait after attempt [n] is [min(10, 1 * 2^(n-1))]
    seconds, between 1 and 10. *)
Theorem with_retry_three_attempts
    {A : Type} (retry : exn → bool) (operation : M A) :
  retry = retry_if_RpcError ∨ retry = retry_if_httpx_error →
  (∀ w e1 w1 e2 w2 a w3,
     operation w = (Raise e1, w1) → retry e1 = true →
     operation (sleep 1 w1) = (Raise e2, w2) → retry e2 = true →
     operation (sleep 2 w2) = (Ok a, w3) →
     with_retry retry operation w
     = {| outcome := Ok a; final := w3; invocations := 3; waits := [1; 2] |}) ∧
  (∀ w, (1 ≤ invocations (with_retry retry operation w) ≤ 3)%nat) ∧
  (∀ w e w1,
     operation w = (Raise e, w1) → retry e = false →
     with_retry retry operation w
     = {| outcome := Raise e; final := w1; invocations := 1; waits := [] |}) ∧
  (∀ w w1,
     operation w = (Raise CircuitBreakerError, w1) →
     with_retry retry operation w
     = {| outcome := Raise CircuitBreakerError; final := w1;
          invocations := 1; waits := [] |}) ∧
  (∀ w, waits (with_retry retry operation w)
        = map (wait_exponential 1 1 10)
            (seq 1 (invocations (with_retry retry operation w) - 1))) ∧
  (∀ n, (1 ≤ n)%nat →
        wait_exponential 1 1 10 n = Z.min 10 (1 * 2 ^ (Z.of_nat n - 1)) ∧
        1 ≤ wait_exponential 1 1 10 n ≤ 10).
Proof.
  intros Hretry.
  assert (∀ w e w1,
            operation w = (Raise e, w1) → retry e = false →
            with_retry retry operation w
            = {| outcome := Raise e; final := w1; invocations := 1; waits := [] |})
    as Honce.
  { intros w e w1 Hop He. unfold with_retry, retrying. simpl.
    by rewrite Hop, He. }
  split_and!.
  - intros w e1 w1 e2 w2 a w3 H1 He1 H2 He2 H3.
    unfold with_retry, retrying. simpl.
    rewrite H1, He1. change (wait_exponential 1 1 10 1) with 1.
    rewrite H2, He2. change (wait_exponential 1 1 10 2) with 2.
    by rewrite H3.
  - apply with_retry_invocations.
  - exact Honce.
  - intros w w1 Hop. apply Honce; [done|]. by destruct Hretry as [-> | ->].
  - apply with_retry_waits.
  - apply wait_exponential_backoff.
Qed.

(** A catalog that fails its first two calls with a [grpc.RpcError] and
    answers from the third call on. *)
Definition flaky_env : Env :=
  {| catalog_ValidateItems := fun calls item_ids =>
       if decide (calls < 2)%nat then Raise RpcError
       else Ok (map sample_catalog item_ids);
     notifications_post := fun _ _ => Raise RequestError;
     chat_rooms_post := fun _ _ => Raise RequestError |}.

Lemma with_retry_three_attempts_witness :
  let r := with_retry retry_if_RpcError (validate_items_attempt flaky_env [1; 2; 3])
             (initial_world 0) in
  outcome r = Ok (map sample_catalog [1; 2; 3]) ∧
  invocations r = 3%nat ∧ waits r = [1; 2] ∧ catalog_calls (final r) = 3%nat.
Proof.
  pose proof (with_retry_three_attempts retry_if_RpcError
                (validate_items_attempt flaky_env [1; 2; 3]) (or_introl eq_refl))
    as (H & _).
  set (op := validate_items_attempt flaky_env [1; 2; 3]) in *.
  set (w1 := snd (op (initial_world 0))).
  set (w2 := snd (op (sleep 1 w1))).
  set (w3 := snd (op (sleep 2 w2))).
  specialize (H (initial_world 0) RpcError w1 RpcError w2
                (map sample_catalog [1; 2; 3]) w3).
  intros r. subst r. rewrite H.
  - split; [reflexivity|]. split; [reflexivity|]. split; [reflexivity|].
    vm_compute. reflexivity.
  - vm_compute. reflexivity.
  - reflexivity.
  - vm_compute. reflexivity.
  - reflexivity.
  - vm_compute. reflexivity.
Defined.

(** ** The verdict list of [validate_items] *)

Lemma retry_loop_ok {St A} retry wait pause (operation : St → result A * St)
    (I : St → Prop) :
  (∀ s, I s → I (snd (operation s))) →
  (∀ z s, I s → I (pause z s)) →
  ∀ k n s a,
    I s →
    outcome (retry_loop retry wait pause k n operation s) = Ok a →
    ∃ s0, I s0 ∧
          operation s0 = (Ok a, final (retry_loop retry wait pause k n operation s)).
Proof.
  intros Hop Hpause k. induction k as [|k IH]; intros n s a Hs; simpl;
    pose proof (Hop s Hs) as Hs1;
    destruct (operation s) as [[a1|e1] s1] eqn:Heq; simpl in *.
  - intros [= ->]. by exists s.
  - by destruct (retry e1).
  - intros [= ->]. by exists s.
  - destruct (retry e1); [|done]. simpl. apply IH. by apply Hpause.
Qed.

Lemma map_copy_validations (response : list ValidationResult) :
  map (fun validation =>
         {| item_id := item_id validation; exists_ := exists_ validation;
            is_active := is_active validation; owner_id := owner_id validation |})
    response = response.
Proof. induction response as [|[] l IH]; simpl; [done|]. by rewrite IH. Qed.

Lemma before_call_catalog_calls name w w0 :
  before_call name w = Some w0 → catalog_calls w0 = catalog_calls w.
Proof.
  unfold before_call. destruct (state (breaker name w)); try by intros [= <-].
  case_decide; [|done]. by intros [= <-].
Qed.

Lemma validate_items_attempt_calls env item_ids w :
  (catalog_calls w ≤ catalog_calls (snd (validate_items_attempt env item_ids w)))%nat.
Proof.
  unfold validate_items_attempt, try_except, bind, call, stub_ValidateItems, ret, raise.
  destruct (before_call catalog_grpc w) as [w0|] eqn:Hb; simpl; [|lia].
  apply before_call_catalog_calls in Hb.
  destruct (catalog_ValidateItems env (catalog_calls w0) item_ids) as [r|e]; simpl;
    [lia|].
  destruct e; simpl; lia.
Qed.

Lemma validate_items_attempt_ok env item_ids w verdicts w1 :
  validate_items_attempt env item_ids w = (Ok verdicts, w1) →
  ∃ k, (catalog_calls w ≤ k)%nat ∧
       catalog_ValidateItems env k item_ids = Ok verdicts.
Proof.
  unfold validate_items_attempt, try_except, bind, call, stub_ValidateItems, ret, raise.
  destruct (before_call catalog_grpc w) as [w0|] eqn:Hb; simpl; [|done].
  apply before_call_catalog_calls in Hb.
  destruct (catalog_ValidateItems env (catalog_calls w0) item_ids) as [r|e] eqn:Hr;
    simpl.
  - rewrite map_copy_validations. intros [= <- _].
    exists (catalog_calls w0). split; [lia|done].
  - by destruct e.
Qed.

(** A successful call hands back the verdict list of the catalog's
    response to one of its calls, entry for entry. *)
Lemma validate_items_returns_catalog_response
    (env : Env) (item_ids : list Z) (w w' : World)
    (verdicts : list ValidationResult) :
  validate_items env item_ids w = (Ok verdicts, w') →
  ∃ k, (catalog_calls w ≤ k)%nat ∧
       catalog_ValidateItems env k item_ids = Ok verdicts.
Proof.
  unfold validate_items, run_retry, with_retry, retrying. intros [= Hout Hfin].
  destruct (retry_loop_ok retry_if_RpcError (wait_exponential 1 1 10) sleep
              (validate_items_attempt env item_ids)
              (fun s => (catalog_calls w ≤ catalog_calls s)%nat))
    with (k := (3 - 1)%nat) (n := 1%nat) (s := w) (a := verdicts)
    as (s0 & Hs0 & Hop); try done.
  - intros s Hs. pose proof (validate_items_attempt_calls env item_ids s). lia.
  - destruct (validate_items_attempt_ok env item_ids s0 verdicts _ Hop)
      as (k & Hk & Hresp).
    exists k. split; [lia|done].
Qed.

(** Modelled from the spec: the catalog service behind
    [stub.ValidateItems] is remote and not part of the sources.  Sections
    4.3 and 6 of the specification: the reply to a batch of item ids
    holds, per requested id, the verdict [{exists, isActive, ownerId}];
    an id the catalog does not know gets [exists = false] and the other
    fields at their defaults.  [known] is the content of the catalog
    when it answers: the activity flag and the owner of each item it
    knows. *)
Definition catalog_verdict (known : Z → option (bool * string)) (id : Z)
    : ValidationResult :=
  match known id with
  | Some (active, owner) =>
      {| item_id := id; exists_ := true; is_active := active; owner_id := owner |}
  | None =>
      {| item_id := id; exists_ := false; is_active := false; owner_id := "" |}
  end.

Definition catalog_reply (known : Z → option (bool * string)) (item_ids : list Z)
    : list ValidationResult :=
  map (catalog_verdict known) item_ids.

(** Modelled from the spec: a deployment whose catalog keeps that
    contract.  A call may fail; a call that answers, answers with the
    per-id reply for the content the catalog has at that moment. *)
Definition catalog_per_id (env : Env) : Prop :=
  ∀ calls item_ids verdicts,
    catalog_ValidateItems env calls item_ids = Ok verdicts →
    ∃ known, verdicts = catalog_reply known item_ids.



(** The content of the sample catalog. *)
Definition sample_known (id : Z) : option (bool * string) :=
  if decide (id = 1 ∨ id = 2) then Some (true, "alice")
  else if decide (id = 3) then Some (true, "bob")
  else None.

Lemma sample_env_per_id : catalog_per_id sample_env.
Proof.
  intros calls item_ids verdicts [= <-]. exists sample_known.
  unfold catalog_reply. apply map_ext. intros id.
  unfold sample_catalog, catalog_verdict, sample_known.
  by repeat case_decide.
Qed.


(** ** Circuit breakers *)

(** The catalog breaker around the blocking stub call
    ([catalog_circuit_breaker.call(self.stub.ValidateItems, request)]):
    one call, from each state. *)
Lemma catalog_breaker_call env item_ids w :
  let cb := catalog_circuit_breaker w in
  let r := call catalog_grpc (stub_ValidateItems env item_ids) w in
  let cb' := catalog_circuit_breaker (snd r) in
  (state cb = STATE_CLOSED →
   catalog_calls (snd r) = S (catalog_calls w) ∧
   fst r = catalog_ValidateItems env (catalog_calls w) item_ids ∧
   (is_ok (fst r) = true → state cb' = STATE_CLOSED ∧ fail_counter cb' = 0%nat) ∧
   (is_ok (fst r) = false →
    fail_counter cb' = S (fail_counter cb) ∧
    ((fail_max cb ≤ S (fail_counter cb))%nat →
     state cb' = STATE_OPEN ∧ opened_at cb' = now w) ∧
    ((S (fail_counter cb) < fail_max cb)%nat → state cb' = STATE_CLOSED))) ∧
  (state cb = STATE_OPEN → now w - opened_at cb ≤ reset_timeout cb →
   r = (Raise CircuitBreakerError, w)) ∧
  (state cb = STATE_OPEN → reset_timeout cb < now w - opened_at cb →
   catalog_calls (snd r) = S (catalog_calls w) ∧
   fst r = catalog_ValidateItems env (catalog_calls w) item_ids ∧
   (is_ok (fst r) = true → state cb' = STATE_CLOSED ∧ fail_counter cb' = 0%nat) ∧
   (is_ok (fst r) = false → state cb' = STATE_OPEN ∧ opened_at cb' = now w)).
Proof.
  intros cb r cb'. subst cb r cb'.
  unfold call, before_call, stub_ValidateItems. simpl.
  split_and!.
  - intros Hs. rewrite Hs.
    destruct (catalog_ValidateItems env (catalog_calls w) item_ids) as [a|e]; simpl.
    + split_and!; done.
    + unfold on_failure; simpl. rewrite Hs. split_and!; try done.
      intros _. split; [by case_decide|].
      split; intros Hmax;
        [by rewrite decide_True by lia|by rewrite decide_False by lia].
  - intros Hs Hle. rewrite Hs. by rewrite decide_False by lia.
  - intros Hs Hlt. rewrite Hs. rewrite decide_True by lia. simpl.
    destruct (catalog_ValidateItems env (catalog_calls w) item_ids) as [a|e]; simpl.
    + split_and!; done.
    + split_and!; done.
Qed.

(** A catalog that is down for its first six calls and answers from the
    seventh on. *)
Definition outage_env : Env :=
  {| catalog_ValidateItems := fun calls item_ids =>
       if decide (calls < 6)%nat then Raise RpcError
       else Ok (map sample_catalog item_ids);
     notifications_post := fun _ _ => Raise RequestError;
     chat_rooms_post := fun _ _ => Raise RequestError |}.

Definition catalog_call (w : World) : World :=
  snd (call catalog_grpc (stub_ValidateItems outage_env [1; 2; 3]) w).

(** Five consecutive failures open the catalog breaker; while it is open
    a call fails at once, the stub is not invoked; once more than 60
    seconds have passed one call goes through as the probe: failing, it
    reopens the breaker, succeeding, it closes it and clears the
    counter. *)
Example catalog_breaker_opens_and_probes :
  let w4 := Nat.iter 4 catalog_call (initial_world 0) in
  let w5 := catalog_call w4 in
  let w6 := with_now 61 w5 in
  let w7 := with_now 200 (catalog_call w6) in
  state (catalog_circuit_breaker w4) = STATE_CLOSED ∧
  state (catalog_circuit_breaker w5) = STATE_OPEN ∧
  catalog_calls w5 = 5%nat ∧
  call catalog_grpc (stub_ValidateItems outage_env [1; 2; 3]) (with_now 60 w5)
  = (Raise CircuitBreakerError, with_now 60 w5) ∧
  catalog_calls (catalog_call w6) = 6%nat ∧
  state (catalog_circuit_breaker (catalog_call w6)) = STATE_OPEN ∧
  opened_at (catalog_circuit_breaker (catalog_call w6)) = 61 ∧
  call catalog_grpc (stub_ValidateItems outage_env [1; 2; 3]) (with_now 100 (catalog_call w6))
  = (Raise CircuitBreakerError, with_now 100 (catalog_call w6)) ∧
  fst (call catalog_grpc (stub_ValidateItems outage_env [1; 2; 3]) w7)
  = Ok (map sample_catalog [1; 2; 3]) ∧
  state (catalog_circuit_breaker (catalog_call w7)) = STATE_CLOSED ∧
  fail_counter (catalog_circuit_breaker (catalog_call w7)) = 0%nat.
Proof. vm_compute. repeat split. Qed.

(** The breakers of the HTTP client.  In [http_post_attempt] the
    operation handed to the breaker only builds the request coroutine;
    the request runs when the coroutine is awaited, after the breaker
    has recorded a success.  So an attempt leaves a closed breaker
    closed with a counter of 0, whatever the request does. *)
Lemma http_post_attempt_breaker client_post name w :
  state (breaker name w) = STATE_CLOSED →
  (∀ w0, breaker name (snd (client_post w0)) = breaker name w0) →
  breaker name (snd (http_post_attempt client_post name w))
  = on_success (breaker name w) ∧
  http_post_attempt client_post name w
  = client_post (with_breaker name (on_success (breaker name w)) w).
Proof.
  intros Hs Hpost. unfold http_post_attempt, bind, call, before_call, ret.
  rewrite Hs. split; [|done]. rewrite Hpost. by destruct name.
Qed.

Definition http_breakers_closed (w : World) : Prop :=
  notification_circuit_breaker w = new_breaker 5 60 ∧
  chat_circuit_breaker w = new_breaker 5 60.

Definition keeps_http_breakers {A} (m : M A) : Prop :=
  ∀ w, http_breakers_closed w → http_breakers_closed (snd (m w)).

Lemma keeps_http_bind {A B} (m : M A) (k : A → M B) :
  keeps_http_breakers m → (∀ a, keeps_http_breakers (k a)) →
  keeps_http_breakers (bind m k).
Proof.
  intros Hm Hk w Hw. unfold bind. specialize (Hm w Hw).
  destruct (m w) as [[a|e] w1]; simpl in *; [by apply Hk|done].
Qed.

Lemma keeps_http_try_except {A} (m : M A) handler :
  keeps_http_breakers m → (∀ e h, handler e = Some h → keeps_http_breakers h) →
  keeps_http_breakers (try_except m handler).
Proof.
  intros Hm Hh w Hw. unfold try_except. specialize (Hm w Hw).
  destruct (m w) as [[a|e] w1]; simpl in *; [done|].
  destruct (handler e) as [h|] eqn:He; [|done]. by eapply Hh.
Qed.

Lemma keeps_http_run_retry {A} retry (operation : M A) :
  keeps_http_breakers operation → keeps_http_breakers (run_retry retry operation).
Proof.
  intros Hop w Hw.
  destruct (operation w) as [[a|e] w1] eqn:H1; pose proof (Hop w Hw) as Hw1;
    unfold run_retry, with_retry, retrying; simpl; rewrite H1 in *; simpl in *;
    [done|].
  destruct (retry e); simpl; [|done].
  assert (http_breakers_closed (sleep (wait_exponential 1 1 10 1) w1)) as Hs1 by done.
  pose proof (Hop _ Hs1) as Hw2.
  destruct (operation (sleep _ w1)) as [[a2|e2] w2]; simpl in *; [done|].
  destruct (retry e2); simpl; [|done].
  assert (http_breakers_closed (sleep (wait_exponential 1 1 10 2) w2)) as Hs2 by done.
  pose proof (Hop _ Hs2) as Hw3.
  destruct (operation (sleep _ w2)) as [[a3|e3] w3]; simpl in *; [done|].
  destruct (retry e3); simpl; done.
Qed.

Lemma keeps_http_validate_items env item_ids :
  keeps_http_breakers (validate_items env item_ids).
Proof.
  apply keeps_http_run_retry, keeps_http_try_except.
  - apply keeps_http_bind; [|by intros a w Hw].
    intros w Hw. unfold call, before_call, stub_ValidateItems. simpl.
    destruct (state (catalog_circuit_breaker w)); simpl;
      try case_decide; simpl;
      try destruct (catalog_ValidateItems env _ item_ids); simpl; done.
  - intros [] h; intros [= <-]; by intros w Hw.
Qed.

Lemma keeps_http_post_with_retry client_post name :
  name ≠ catalog_grpc →
  keeps_http_breakers client_post →
  keeps_http_breakers (http_post_with_retry client_post name).
Proof.
  intros Hname Hpost. apply keeps_http_run_retry. intros w [Hn Hc].
  unfold http_post_attempt, bind, call, before_call, ret.
  destruct name; [done| |]; simpl; [rewrite Hn|rewrite Hc]; simpl;
    apply Hpost; split; simpl; rewrite ?Hn, ?Hc; done.
Qed.

Lemma keeps_http_send_trade_notification env offer new_status actor_id :
  keeps_http_breakers (send_trade_notification env offer new_status actor_id).
Proof.
  unfold send_trade_notification.
  destruct (notification_for _ _ _) as [data|]; [|by intros w Hw].
  apply keeps_http_bind; [|by intros a w Hw].
  apply keeps_http_try_except.
  - apply keeps_http_bind.
    + apply keeps_http_post_with_retry; [done|]. by intros w Hw.
    + intros r. case_decide; by intros w Hw.
  - intros e h [= <-]. by intros w Hw.
Qed.

Lemma keeps_http_create_chat_room env offer :
  keeps_http_breakers (create_chat_room env offer).
Proof.
  apply keeps_http_try_except.
  - apply keeps_http_bind.
    + apply keeps_http_post_with_retry; [done|]. by intros w Hw.
    + intros r. case_decide; by intros w Hw.
  - intros e h [= <-]. by intros w Hw.
Qed.

Lemma keeps_http_exec env r w :
  http_breakers_closed w → http_breakers_closed (exec env r w).
Proof.
  destruct r as [offer_data|offer_id new_status user_id|offer_id user_id|s]; simpl.
  - revert w. change (keeps_http_breakers (create_trade_offer env offer_data)).
    unfold create_trade_offer. repeat case_decide; try by intros w Hw.
    apply keeps_http_bind; [|by intros a w Hw].
    apply keeps_http_try_except.
    + apply keeps_http_bind; [apply keeps_http_validate_items|].
      intros validations w Hw. by rewrite check_validations_world.
    + intros [] h; intros [= <-]; by intros w Hw.
  - revert w. change (keeps_http_breakers
                        (update_trade_offer_status env offer_id new_status user_id)).
    apply keeps_http_bind.
    { intros w Hw. unfold get_or_404. by destruct (db w !! offer_id). }
    intros db_offer. apply keeps_http_bind.
    { intros w Hw. by rewrite check_transition_world. }
    intros _. apply keeps_http_bind; [by intros w Hw|].
    intros updated. apply keeps_http_bind.
    { apply keeps_http_send_trade_notification. }
    intros _. apply keeps_http_bind; [|by intros a w Hw].
    case_decide; [apply keeps_http_create_chat_room|by intros w Hw].
  - intros Hw. unfold delete_trade_offer, bind, get_or_404.
    destruct (db w !! offer_id); [|done]. by repeat case_decide.
  - done.
Qed.

(** The notification and the chat breaker of a running service are
    always closed with a failure counter of 0, whatever the two services
    have answered so far. *)
Lemma reachable_http_breakers_closed env w :
  reachable env w → http_breakers_closed w.
Proof. induction 1 as [t0|w r _ IH]; [done|by apply keeps_http_exec]. Qed.

(** C7, at the failing input.  The notification service refuses every
    connection; [send_notification_resilient] is called five times, each
    call making three attempts.  After these fifteen consecutive
    failures the notification breaker is still closed with a failure
    counter of 0, and the sixth call again sends three requests instead
    of failing at once.  (The catalog breaker, which wraps the blocking
    stub call itself, opens after five failures:
    [catalog_breaker_opens_and_probes].) *)
Theorem notification_breaker_never_opens :
  let data := {| user_id := "alice"; related_offer_id := 1; related_user_id := "bob";
                 type_ := "trade_offer_accepted"; title := "Trade Offer Accepted! 🎉";
                 body := "Great news! Your trade offer has been accepted." |} in
  let send w := snd (send_notification_resilient sample_env data w) in
  let w5 := Nat.iter 5 send (initial_world 0) in
  notification_calls w5 = 15%nat ∧
  (∀ k, notifications_post sample_env k data = Raise RequestError) ∧
  state (notification_circuit_breaker w5) = STATE_CLOSED ∧
  fail_counter (notification_circuit_breaker w5) = 0%nat ∧
  fst (send_notification_resilient sample_env data w5) = Ok false ∧
  notification_calls (send w5) = 18%nat.
Proof. vm_compute. repeat split. Qed.

(** * Further properties of the endpoints *)

(** [get_trade_offer]. *)
Definition get_trade_offer (offer_id : Z) : M TradeOfferDB.t := get_or_404 offer_id.

(** The verdicts pass the four checks of [create_trade_offer]. *)
Definition verdicts_pass (offer_data : TradeOfferCreate.t)
    (validations : list ValidationResult) : Prop :=
  ids_not_found validations = [] ∧ ids_inactive validations = [] ∧
  ids_not_of_proposer offer_data validations = [] ∧
  ids_not_of_receiver offer_data validations = [].

#[global] Instance verdicts_pass_dec offer_data validations :
  Decision (verdicts_pass offer_data validations).
Proof. unfold verdicts_pass. apply _. Defined.

Lemma check_validations_pass offer_data validations w :
  is_ok (fst (check_validations offer_data validations w)) = true ↔
  verdicts_pass offer_data validations.
Proof.
  unfold verdicts_pass, ids_not_found, ids_inactive, ids_not_of_proposer,
    ids_not_of_receiver, check_validations, raise, ret.
  rewrite !filter_owner_in_set, !map_item_id_nil.
  repeat case_decide; simpl; split; try done; try tauto; intros; exfalso; tauto.
Qed.

(** Creation with verdicts from the catalog succeeds exactly when no
    verdict violates a check; the stored row is pending, has the next
    id, the fields of the request, no [responded_at], and is what
    [get_trade_offer] then returns. *)
Theorem create_trade_offer_succeeds_iff_verdicts_pass
    (env : Env) (offer_data : TradeOfferCreate.t) (w w1 : World)
    (validations : list ValidationResult) :
  well_formed_request offer_data →
  validate_items env (TradeOfferCreate.offered_item_ids offer_data
                      ++ TradeOfferCreate.requested_item_ids offer_data) w
  = (Ok validations, w1) →
  let r := create_trade_offer env offer_data w in
  (is_ok (fst r) = true ↔ verdicts_pass offer_data validations) ∧
  (verdicts_pass offer_data validations →
   let row :=
     {| TradeOfferDB.id := next_id w;
        TradeOfferDB.proposer_id := TradeOfferCreate.proposer_id offer_data;
        TradeOfferDB.receiver_id := TradeOfferCreate.receiver_id offer_data;
        TradeOfferDB.offered_item_ids := TradeOfferCreate.offered_item_ids offer_data;
        TradeOfferDB.requested_item_ids :=
          TradeOfferCreate.requested_item_ids offer_data;
        TradeOfferDB.status := pending;
        TradeOfferDB.message := TradeOfferCreate.message offer_data;
        TradeOfferDB.created_at := now w1;
        TradeOfferDB.updated_at := now w1;
        TradeOfferDB.responded_at := None |} in
   fst r = Ok row ∧
   db (snd r) = <[next_id w := row]> (db w) ∧
   next_id (snd r) = next_id w + 1 ∧
   get_trade_offer (next_id w) (snd r) = (Ok row, snd r)).
Proof.
  intros Hwf Hv r. subst r.
  rewrite (create_trade_offer_validated env offer_data w validations w1 Hwf Hv).
  pose proof (check_validations_pass offer_data validations w1) as Hpass.
  destruct (dispatch_only_validate_items env
              (TradeOfferCreate.offered_item_ids offer_data
               ++ TradeOfferCreate.requested_item_ids offer_data) w) as [Hdb Hn _].
  rewrite Hv in Hdb, Hn. simpl in Hdb, Hn.
  destruct (check_validations offer_data validations w1) as [[[]|e] w2]; simpl in *.
  - split; [tauto|]. intros _. unfold db_insert, get_trade_offer, get_or_404. simpl.
    rewrite Hdb, Hn. split_and!; try done. by rewrite lookup_insert_eq.
  - split; [done|]. intros Hp. apply Hpass in Hp. done.
Qed.

Lemma create_trade_offer_succeeds_witness :
  well_formed_request sample_offer ∧
  fst (validate_items sample_env [1; 2; 3] (initial_world 0))
  = Ok (map sample_catalog [1; 2; 3]) ∧
  is_ok (fst (create_trade_offer sample_env sample_offer (initial_world 0))) = true.
Proof.
  assert (well_formed_request sample_offer) as Hwf.
  { unfold well_formed_request, sample_offer; simpl. split_and!.
    - discriminate.
    - apply (bool_decide_unpack _). vm_compute. reflexivity.
    - apply (bool_decide_unpack _). vm_compute. reflexivity.
    - intros x Ho Hr. apply list_elem_of_singleton in Hr. subst x.
      revert Ho. apply (bool_decide_unpack _). vm_compute. reflexivity. }
  split; [exact Hwf|]. split; [vm_compute; reflexivity|].
  apply (create_trade_offer_succeeds_iff_verdicts_pass sample_env sample_offer
           (initial_world 0)
           (snd (validate_items sample_env [1; 2; 3] (initial_world 0)))
           (map sample_catalog [1; 2; 3]) Hwf).
  - vm_compute. reflexivity.
  - apply (bool_decide_unpack _). vm_compute. reflexivity.
Defined.

(** A creation request that fails, for whatever reason, stores nothing:
    the table and the id counter are as before and no commit was made. *)
Theorem create_trade_offer_failure_stores_nothing
    (env : Env) (offer_data : TradeOfferCreate.t) (w : World) (e : exn) :
  fst (create_trade_offer env offer_data w) = Raise e →
  effects_only w (snd (create_trade_offer env offer_data w)).
Proof.
  intros He.
  destruct (create_trade_offer_world env offer_data w) as [H|(_ & w1 & _ & Hc)];
    [done|].
  rewrite Hc in He. discriminate.
Qed.

(** With the catalog down the request ends in a 503 and nothing is
    stored. *)
Lemma create_trade_offer_failure_witness :
  fst (create_trade_offer outage_env sample_offer (initial_world 0))
  = Raise (HTTPException HTTP_503_SERVICE_UNAVAILABLE Catalog_service_unavailable) ∧
  effects_only (initial_world 0)
    (snd (create_trade_offer outage_env sample_offer (initial_world 0))).
Proof.
  assert (fst (create_trade_offer outage_env sample_offer (initial_world 0))
          = Raise (HTTPException HTTP_503_SERVICE_UNAVAILABLE
                     Catalog_service_unavailable)) as He
    by (vm_compute; reflexivity).
  split; [exact He|].
  exact (create_trade_offer_failure_stores_nothing outage_env sample_offer
           (initial_world 0) _ He).
Defined.

(** ** The life of a stored offer *)

(** The status changes that [check_transition] admits for some user. *)
Inductive lifecycle_step : TradeOfferStatus → TradeOfferStatus → Prop :=
| step_cancel : lifecycle_step pending cancelled
| step_accept : lifecycle_step pending accepted
| step_reject : lifecycle_step pending rejected
| step_complete : lifecycle_step accepted completed.

(** The fields no endpoint writes after creation. *)
Definition same_identity (o o' : TradeOfferDB.t) : Prop :=
  TradeOfferDB.id o' = TradeOfferDB.id o ∧
  TradeOfferDB.proposer_id o' = TradeOfferDB.proposer_id o ∧
  TradeOfferDB.receiver_id o' = TradeOfferDB.receiver_id o ∧
  TradeOfferDB.offered_item_ids o' = TradeOfferDB.offered_item_ids o ∧
  TradeOfferDB.requested_item_ids o' = TradeOfferDB.requested_item_ids o ∧
  TradeOfferDB.message o' = TradeOfferDB.message o ∧
  TradeOfferDB.created_at o' = TradeOfferDB.created_at o.

Lemma same_identity_refl o : same_identity o o.
Proof. by repeat split. Qed.

Lemma same_identity_trans o1 o2 o3 :
  same_identity o1 o2 → same_identity o2 o3 → same_identity o1 o3.
Proof. unfold same_identity. intros ? ?. split_and!; naive_solver congruence. Qed.

Lemma exec_row_step env r w k o o' :
  store_ok w → db w !! k = Some o → db (exec env r w) !! k = Some o' →
  o' = o ∨
  (lifecycle_step (TradeOfferDB.status o) (TradeOfferDB.status o') ∧
   same_identity o o').
Proof.
  intros Hok Hk Hk'.
  destruct (exec_row env r w k o Hok Hk)
    as [H|[[H _]|(new_status & user_id & o'' & Hc & Hu & H)]];
    rewrite H in Hk'; [left; congruence|done|].
  injection Hk' as ->. right.
  unfold db_update_status in Hu. simpl in Hu. injection Hu as <-. simpl.
  split; [|by repeat split].
  apply check_transition_ok_cases in Hc as [[-> [->|[->| ->]]]|[-> ->]];
    constructor.
Qed.

Lemma exec_next_id env r w : next_id w ≤ next_id (exec env r w).
Proof.
  destruct r as [offer_data|offer_id new_status user_id|offer_id user_id|s]; simpl.
  - destruct (create_trade_offer_world env offer_data w)
      as [[_ Hn _]|(_ & w1 & [_ Hn _] & ->)]; [lia|].
    unfold db_insert; simpl. lia.
  - destruct (db w !! offer_id) as [db_offer|] eqn:Hdb.
    + destruct (fst (check_transition db_offer new_status user_id w)) as [[]|e] eqn:Hc.
      * destruct (update_trade_offer_status_committed env offer_id new_status
                    user_id w db_offer Hdb Hc) as (w' & -> & [_ Hn _]).
        simpl in *. unfold db_update_status in Hn. simpl in Hn. lia.
      * rewrite (update_trade_offer_status_rejected env offer_id new_status
                   user_id w db_offer e Hdb Hc). simpl. lia.
    + unfold update_trade_offer_status, bind, get_or_404. rewrite Hdb. simpl. lia.
  - unfold delete_trade_offer, bind, get_or_404.
    destruct (db w !! offer_id); [|simpl; lia].
    repeat case_decide; simpl; lia.
  - lia.
Qed.

Lemma exec_absent env r w k :
  store_ok w → k < next_id w → db w !! k = None → db (exec env r w) !! k = None.
Proof.
  intros Hok Hlt Hk.
  destruct r as [offer_data|offer_id new_status user_id|offer_id user_id|s]; simpl.
  - destruct (create_trade_offer_world env offer_data w)
      as [[Hdb _ _]|(_ & w1 & [Hdb Hn _] & ->)]; [by rewrite Hdb|].
    unfold db_insert; simpl. rewrite lookup_insert_ne by lia. by rewrite Hdb.
  - destruct (db w !! offer_id) as [db_offer|] eqn:Hdb.
    + destruct (fst (check_transition db_offer new_status user_id w)) as [[]|e] eqn:Hc.
      * destruct (update_trade_offer_status_committed env offer_id new_status
                    user_id w db_offer Hdb Hc) as (w' & -> & [Hdb' _ _]).
        destruct (Hok _ _ Hdb) as [Hid _ _ _].
        simpl. rewrite Hdb'. unfold db_update_status; simpl. rewrite Hid.
        rewrite lookup_insert_ne; [done|]. intros ->. congruence.
      * by rewrite (update_trade_offer_status_rejected env offer_id new_status
                      user_id w db_offer e Hdb Hc).
    + unfold update_trade_offer_status, bind, get_or_404. by rewrite Hdb.
  - unfold delete_trade_offer, bind, get_or_404.
    destruct (db w !! offer_id); [|done].
    repeat case_decide; simpl; try done.
    apply lookup_delete_None. by right.
  - done.
Qed.

Lemma run_absent env requests w k :
  store_ok w → k < next_id w → db w !! k = None →
  db (run env requests w) !! k = None.
Proof.
  revert w. induction requests as [|r requests IH]; intros w Hok Hlt Hk; [done|].
  simpl. apply IH.
  - by apply store_ok_exec.
  - pose proof (exec_next_id env r w). lia.
  - by apply exec_absent.
Qed.

Lemma run_row env requests w k o o' :
  store_ok w → db w !! k = Some o → db (run env requests w) !! k = Some o' →
  rtc lifecycle_step (TradeOfferDB.status o) (TradeOfferDB.status o') ∧
  same_identity o o'.
Proof.
  revert w o. induction requests as [|r requests IH]; intros w o Hok Hk Hk'.
  { simpl in Hk'. assert (o' = o) as -> by congruence.
    split; [done|apply same_identity_refl]. }
  simpl in Hk'. destruct (Hok k o Hk) as [_ Hlt _ _].
  destruct (db (exec env r w) !! k) as [o1|] eqn:Hk1.
  - destruct (IH (exec env r w) o1 (store_ok_exec env r w Hok) Hk1 Hk') as [Hs Hi].
    destruct (exec_row_step env r w k o o1 Hok Hk Hk1) as [->|[Hstep Hi1]]; [done|].
    split; [by eapply rtc_l|by eapply same_identity_trans].
  - rewrite run_absent in Hk'; [done|by apply store_ok_exec| |done].
    pose proof (exec_next_id env r w). lia.
Qed.

(** Whatever requests follow, a stored offer that is still stored has
    moved along the lifecycle only (pending to accepted, rejected or
    cancelled; accepted to completed; never back), and its id, parties,
    item lists, message and [created_at] are those it was created
    with. *)
Theorem stored_offer_follows_lifecycle
    (env : Env) (requests : list Request) (w : World) (offer_id : Z)
    (o o' : TradeOfferDB.t) :
  reachable env w →
  db w !! offer_id = Some o →
  db (run env requests w) !! offer_id = Some o' →
  rtc lifecycle_step (TradeOfferDB.status o) (TradeOfferDB.status o') ∧
  same_identity o o'.
Proof. intros Hreach. apply run_row. by apply reachable_store_ok with env. Qed.

Lemma stored_offer_follows_lifecycle_witness :
  reachable sample_env world_pending ∧
  db world_pending !! 1 = Some sample_pending ∧
  db world_accepted !! 1 = Some sample_accepted ∧
  rtc lifecycle_step pending accepted.
Proof.
  assert (reachable sample_env world_pending) as Hreach
    by apply reachable_exec, reachable_init.
  assert (db world_pending !! 1 = Some sample_pending) as Hrow
    by (vm_compute; reflexivity).
  assert (db (run sample_env [Elapse 10; PATCH_offer 1 accepted "bob"] world_pending)
          !! 1 = Some sample_accepted) as Hrow'
    by (vm_compute; reflexivity).
  split; [exact Hreach|]. split; [exact Hrow|]. split; [exact Hrow'|].
  apply (stored_offer_follows_lifecycle sample_env
           [Elapse 10; PATCH_offer 1 accepted "bob"] world_pending 1
           sample_pending sample_accepted Hreach Hrow Hrow').
Defined.

Lemma exec_row_kept env r w k o :
  store_ok w → db w !! k = Some o → TradeOfferDB.status o ≠ pending →
  ∃ o', db (exec env r w) !! k = Some o' ∧ TradeOfferDB.status o' ≠ pending ∧
        (TradeOfferDB.status o ≠ accepted → o' = o).
Proof.
  intros Hok Hk Hnp.
  destruct (exec_row env r w k o Hok Hk)
    as [H|[[_ H]|(new_status & user_id & o'' & Hc & Hu & H)]];
    [exists o; by split_and!|done|].
  exists o''. split; [done|].
  unfold db_update_status in Hu. simpl in Hu. injection Hu as <-. simpl.
  apply check_transition_ok_cases in Hc as [[Hp _]|[Ha ->]]; [done|].
  split; [done|]. by intros ?.
Qed.

Lemma run_row_kept env requests w k o :
  store_ok w → db w !! k = Some o → TradeOfferDB.status o ≠ pending →
  ∃ o', db (run env requests w) !! k = Some o' ∧
        (TradeOfferDB.status o ≠ accepted → o' = o).
Proof.
  revert w o. induction requests as [|r requests IH]; intros w o Hok Hk Hnp;
    [by exists o|].
  simpl. destruct (exec_row_kept env r w k o Hok Hk Hnp) as (o1 & Hk1 & Hnp1 & Heq).
  destruct (IH (exec env r w) o1 (store_ok_exec env r w Hok) Hk1 Hnp1)
    as (o' & Hk' & Heq').
  exists o'. split; [done|]. intros Hna. pose proof (Heq Hna) as ->. by apply Heq'.
Qed.

(** An offer that has left [pending] is never removed again, whatever
    requests follow; and a rejected, cancelled or completed offer stays
    exactly as it is, [updated_at] included. *)
Theorem answered_offer_is_kept
    (env : Env) (requests : list Request) (w : World) (offer_id : Z)
    (o : TradeOfferDB.t) :
  reachable env w →
  db w !! offer_id = Some o →
  TradeOfferDB.status o ≠ pending →
  ∃ o', db (run env requests w) !! offer_id = Some o' ∧
        (TradeOfferDB.status o ≠ accepted → o' = o).
Proof. intros Hreach. apply run_row_kept. by apply reachable_store_ok with env. Qed.

Lemma answered_offer_is_kept_witness :
  reachable sample_env world_accepted ∧
  db world_accepted !! 1 = Some sample_accepted ∧
  ∃ o', db (run sample_env [DELETE_offer 1 "alice"; PATCH_offer 1 cancelled "alice"]
              world_accepted) !! 1 = Some o'.
Proof.
  assert (reachable sample_env world_accepted) as Hreach
    by (repeat apply reachable_exec; apply reachable_init).
  assert (db world_accepted !! 1 = Some sample_accepted) as Hrow
    by (vm_compute; reflexivity).
  split; [exact Hreach|]. split; [exact Hrow|].
  destruct (answered_offer_is_kept sample_env
              [DELETE_offer 1 "alice"; PATCH_offer 1 cancelled "alice"]
              world_accepted 1 sample_accepted Hreach Hrow) as (o' & Ho' & _).
  - discriminate.
  - by exists o'.
Defined.

(** ** What a request sends *)

(** Invariants and counters through the retry loop. *)
Lemma retry_loop_inv {St A} retry wait pause (operation : St → result A * St)
    (I : St → Prop) (R : St → St → Prop) :
  (∀ s, R s s) → (∀ s1 s2 s3, R s1 s2 → R s2 s3 → R s1 s3) →
  (∀ s, I s → I (snd (operation s)) ∧ R s (snd (operation s))) →
  (∀ z s, I s → I (pause z s) ∧ R s (pause z s)) →
  ∀ k n s, I s →
    I (final (retry_loop retry wait pause k n operation s)) ∧
    R s (final (retry_loop retry wait pause k n operation s)).
Proof.
  intros Hrefl Htrans Hop Hpause k. induction k as [|k IH]; intros n s Hs; simpl;
    destruct (Hop s Hs) as [HI HR];
    destruct (operation s) as [[a|e] s1]; simpl in *; try done;
    destruct (retry e); simpl; try done.
  destruct (Hpause (wait n) s1 HI) as [HI' HR'].
  destruct (IH (S n) _ HI') as [HI'' HR'']. split; [done|].
  eapply Htrans; [exact HR|]. eapply Htrans; [exact HR'|exact HR''].
Qed.

Lemma retry_loop_count {St A} retry wait pause (operation : St → result A * St)
    (I : St → Prop) (f : St → nat) :
  (∀ s, I s → I (snd (operation s)) ∧ f (snd (operation s)) = S (f s)) →
  (∀ z s, I s → I (pause z s) ∧ f (pause z s) = f s) →
  ∀ k n s, I s →
    f (final (retry_loop retry wait pause k n operation s))
    = (f s + invocations (retry_loop retry wait pause k n operation s))%nat.
Proof.
  intros Hop Hpause k. induction k as [|k IH]; intros n s Hs; simpl;
    destruct (Hop s Hs) as [HI Hf];
    destruct (operation s) as [[a|e] s1]; simpl in *; try lia;
    destruct (retry e); simpl; try lia.
  destruct (Hpause (wait n) s1 HI) as [HI' Hf'].
  rewrite (IH (S n) _ HI'). lia.
Qed.

Lemma retry_loop_ext {St A} retry wait pause
    (operation operation' : St → result A * St) (I : St → Prop) :
  (∀ s, I s → operation s = operation' s ∧ I (snd (operation s))) →
  (∀ z s, I s → I (pause z s)) →
  ∀ k n s, I s →
    retry_loop retry wait pause k n operation s
    = retry_loop retry wait pause k n operation' s.
Proof.
  intros Hop Hpause k. induction k as [|k IH]; intros n s Hs; simpl;
    destruct (Hop s Hs) as [<- HI];
    destruct (operation s) as [[a|e] s1]; simpl in *; try done;
    destruct (retry e); simpl; try done.
  by rewrite IH by (by apply Hpause).
Qed.

Lemma with_breaker_same name w : with_breaker name (breaker name w) w = w.
Proof. by destruct w, name. Qed.

(** In a running service the breaker of [http_post_with_retry] changes
    nothing: the wrapper is the bare retry loop around the request. *)
Lemma http_post_attempt_closed client_post name w :
  name ≠ catalog_grpc → http_breakers_closed w →
  http_post_attempt client_post name w = client_post w.
Proof.
  intros Hname [Hn Hc]. unfold http_post_attempt, bind, call, before_call, ret.
  destruct name; [done| |]; simpl.
  - rewrite Hn. simpl. f_equal. rewrite Hn.
    change (on_success (new_breaker 5 60)) with (new_breaker 5 60).
    rewrite <- Hn. apply (with_breaker_same notifications_http).
  - rewrite Hc. simpl. f_equal. rewrite Hc.
    change (on_success (new_breaker 5 60)) with (new_breaker 5 60).
    rewrite <- Hc. apply (with_breaker_same chat_http).
Qed.

Lemma http_post_with_retry_closed client_post name w :
  name ≠ catalog_grpc →
  keeps_http_breakers client_post →
  http_breakers_closed w →
  http_post_with_retry client_post name w
  = run_retry retry_if_httpx_error client_post w.
Proof.
  intros Hname Hpost Hw.
  unfold http_post_with_retry, run_retry, with_retry, retrying.
  rewrite (retry_loop_ext retry_if_httpx_error (wait_exponential 1 1 10) sleep
             (http_post_attempt client_post name) client_post http_breakers_closed);
    try done.
  intros s Hs. rewrite http_post_attempt_closed by done. split; [done|by apply Hpost].
Qed.

Theorem http_breaker_has_no_effect
    (env : Env) (w : World) (client_post : M Response) (name : BreakerName) :
  reachable env w →
  name ≠ catalog_grpc →
  keeps_http_breakers client_post →
  http_post_with_retry client_post name w
  = run_retry retry_if_httpx_error client_post w.
Proof.
  intros Hreach Hname Hpost.
  apply http_post_with_retry_closed; try done.
  by apply reachable_http_breakers_closed with env.
Qed.

Lemma http_breaker_has_no_effect_witness :
  let data := {| trade_offer_id := 1; user1_id := "alice"; user2_id := "bob" |} in
  reachable sample_env world_pending ∧
  http_post_with_retry (post_chat_room sample_env data) chat_http world_pending
  = run_retry retry_if_httpx_error (post_chat_room sample_env data) world_pending.
Proof.
  intros data.
  assert (reachable sample_env world_pending) as Hreach
    by apply reachable_exec, reachable_init.
  split; [exact Hreach|].
  apply (http_breaker_has_no_effect sample_env world_pending
           (post_chat_room sample_env data) chat_http Hreach).
  - discriminate.
  - intros w Hw. exact Hw.
Defined.

(** [w'] comes from [w] by events of [P] only, with the two counters
    [fixed1] and [fixed2] untouched. *)
Definition posts_only (P : Event → Prop) (fixed1 fixed2 : World → nat)
    (w w' : World) : Prop :=
  fixed1 w' = fixed1 w ∧ fixed2 w' = fixed2 w ∧
  ∃ evs, trace w' = trace w ++ evs ∧ Forall P evs.

Lemma posts_only_refl P f1 f2 w : posts_only P f1 f2 w w.
Proof. split_and!; try done. exists []. by rewrite app_nil_r. Qed.

Lemma posts_only_trans P f1 f2 w1 w2 w3 :
  posts_only P f1 f2 w1 w2 → posts_only P f1 f2 w2 w3 → posts_only P f1 f2 w1 w3.
Proof.
  intros (H1 & H2 & e1 & Ht1 & Hf1) (H1' & H2' & e2 & Ht2 & Hf2).
  split_and!; try congruence.
  exists (e1 ++ e2). split; [by rewrite Ht2, Ht1, app_assoc|by apply Forall_app].
Qed.

Definition is_notification (data : NotificationData) (e : Event) : Prop :=
  e = EvNotification data ∨ ∃ seconds, e = EvSleep seconds.

Definition is_chat_room (data : ChatRoomData) (e : Event) : Prop :=
  e = EvChatRoom data ∨ ∃ seconds, e = EvSleep seconds.

(** [send_notification_resilient] in a running service: one to three
    posts of [data] to the notification service, nothing else. *)
Lemma send_notification_resilient_posts env data w :
  http_breakers_closed w →
  let w' := snd (send_notification_resilient env data w) in
  http_breakers_closed w' ∧
  posts_only (is_notification data) catalog_calls chat_calls w w' ∧
  (notification_calls w + 1 ≤ notification_calls w' ≤ notification_calls w + 3)%nat.
Proof.
  intros Hw w'. subst w'.
  assert (snd (send_notification_resilient env data w)
          = final (with_retry retry_if_httpx_error (post_notification env data) w))
    as ->.
  { unfold send_notification_resilient, try_except, bind.
    rewrite http_post_with_retry_closed; [|done|by intros s Hs|done].
    unfold run_retry, ret. destruct (outcome _); [by case_decide|done]. }
  unfold with_retry, retrying.
  assert (∀ s, http_breakers_closed s →
               http_breakers_closed (snd (post_notification env data s)) ∧
               posts_only (is_notification data) catalog_calls chat_calls s
                 (snd (post_notification env data s))) as Hop.
  { intros s Hs. split; [done|]. split_and!; try done.
    exists [EvNotification data]. split; [done|]. constructor; [by left|done]. }
  assert (∀ z s, http_breakers_closed s →
                 http_breakers_closed (sleep z s) ∧
                 posts_only (is_notification data) catalog_calls chat_calls s
                   (sleep z s)) as Hsleep.
  { intros z s Hs. split; [done|]. split_and!; try done.
    exists [EvSleep z]. split; [done|]. constructor; [right; by eexists|done]. }
  destruct (retry_loop_inv retry_if_httpx_error (wait_exponential 1 1 10) sleep
              (post_notification env data) http_breakers_closed
              (posts_only (is_notification data) catalog_calls chat_calls)
              (posts_only_refl _ _ _) (posts_only_trans _ _ _) Hop Hsleep
              (3 - 1)%nat 1%nat w Hw) as [HI HR].
  split; [done|]. split; [done|].
  rewrite (retry_loop_count retry_if_httpx_error (wait_exponential 1 1 10) sleep
             (post_notification env data) (fun _ => True) notification_calls);
    try done.
  pose proof (with_retry_invocations retry_if_httpx_error
                (post_notification env data) w) as Hinv.
  unfold with_retry, retrying in Hinv. lia.
Qed.

Lemma create_chat_room_posts env offer w :
  http_breakers_closed w →
  let data := {| trade_offer_id := TradeOfferDB.id offer;
                 user1_id := TradeOfferDB.proposer_id offer;
                 user2_id := TradeOfferDB.receiver_id offer |} in
  let w' := snd (create_chat_room env offer w) in
  http_breakers_closed w' ∧
  posts_only (is_chat_room data) catalog_calls notification_calls w w' ∧
  (chat_calls w + 1 ≤ chat_calls w' ≤ chat_calls w + 3)%nat.
Proof.
  intros Hw data w'. subst w'.
  assert (snd (create_chat_room env offer w)
          = final (with_retry retry_if_httpx_error (post_chat_room env data) w))
    as ->.
  { unfold create_chat_room, create_chat_room_resilient, try_except, bind.
    rewrite http_post_with_retry_closed; [|done|by intros s Hs|done].
    unfold run_retry, ret. fold data. destruct (outcome _); [by case_decide|done]. }
  unfold with_retry, retrying.
  assert (∀ s, http_breakers_closed s →
               http_breakers_closed (snd (post_chat_room env data s)) ∧
               posts_only (is_chat_room data) catalog_calls notification_calls s
                 (snd (post_chat_room env data s))) as Hop.
  { intros s Hs. split; [done|]. split_and!; try done.
    exists [EvChatRoom data]. split; [done|]. constructor; [by left|done]. }
  assert (∀ z s, http_breakers_closed s →
                 http_breakers_closed (sleep z s) ∧
                 posts_only (is_chat_room data) catalog_calls notification_calls s
                   (sleep z s)) as Hsleep.
  { intros z s Hs. split; [done|]. split_and!; try done.
    exists [EvSleep z]. split; [done|]. constructor; [right; by eexists|done]. }
  destruct (retry_loop_inv retry_if_httpx_error (wait_exponential 1 1 10) sleep
              (post_chat_room env data) http_breakers_closed
              (posts_only (is_chat_room data) catalog_calls notification_calls)
              (posts_only_refl _ _ _) (posts_only_trans _ _ _) Hop Hsleep
              (3 - 1)%nat 1%nat w Hw) as [HI HR].
  split; [done|]. split; [done|].
  rewrite (retry_loop_count retry_if_httpx_error (wait_exponential 1 1 10) sleep
             (post_chat_room env data) (fun _ => True) chat_calls);
    try done.
  pose proof (with_retry_invocations retry_if_httpx_error
                (post_chat_room env data) w) as Hinv.
  unfold with_retry, retrying in Hinv. lia.
Qed.

Lemma update_trade_offer_status_unfold env offer_id new_status actor_id w db_offer :
  db w !! offer_id = Some db_offer →
  fst (check_transition db_offer new_status actor_id w) = Ok tt →
  ∃ updated w1,
    db_update_status db_offer new_status w = (Ok updated, w1) ∧
    update_trade_offer_status env offer_id new_status actor_id w
    = (Ok updated,
       let w2 := snd (send_trade_notification env updated new_status actor_id w1) in
       if decide (new_status = accepted) then snd (create_chat_room env updated w2)
       else w2).
Proof.
  intros Hdb Hc. unfold update_trade_offer_status, bind at 1. unfold get_or_404.
  rewrite Hdb. unfold bind at 1.
  pose proof (check_transition_world db_offer new_status actor_id w) as Hw.
  destruct (check_transition db_offer new_status actor_id w) as [[[]|e'] w0];
    simpl in *; [subst w0|congruence].
  unfold bind at 1.
  destruct (db_update_status db_offer new_status w) as [[updated|e] w1] eqn:Hu;
    [|by unfold db_update_status in Hu].
  exists updated, w1. split; [done|].
  unfold bind at 1.
  pose proof (send_trade_notification_returns env updated new_status actor_id w1) as Hn.
  destruct (send_trade_notification env updated new_status actor_id w1) as [[[]|?] w2];
    simpl in *; [|done].
  unfold bind, ret. case_decide; [|done].
  destruct (create_chat_room_returns env updated w2) as [room Hr].
  by destruct (create_chat_room env updated w2) as [[?|?] w3].
Qed.

(** An allowed status update sends: no catalog call; between one and
    three posts of one notification, addressed to the party that did not
    act and naming the offer and the actor; between one and three posts
    of the chat room of the two parties when the new status is accepted,
    none otherwise; and nothing else after the commit. *)
Theorem update_trade_offer_status_dispatches
    (env : Env) (w : World) (offer_id : Z) (db_offer : TradeOfferDB.t)
    (new_status : TradeOfferStatus) (actor_id : string) :
  reachable env w →
  db w !! offer_id = Some db_offer →
  allowed db_offer new_status actor_id →
  ∃ updated w' notification dispatched,
    update_trade_offer_status env offer_id new_status actor_id w = (Ok updated, w') ∧
    notification_for updated new_status actor_id = Some notification ∧
    (actor_id = TradeOfferDB.proposer_id db_offer →
     user_id notification = TradeOfferDB.receiver_id db_offer) ∧
    (actor_id = TradeOfferDB.receiver_id db_offer →
     user_id notification = TradeOfferDB.proposer_id db_offer) ∧
    related_offer_id notification = offer_id ∧
    related_user_id notification = actor_id ∧
    catalog_calls w' = catalog_calls w ∧
    (notification_calls w + 1 ≤ notification_calls w' ≤ notification_calls w + 3)%nat ∧
    (new_status = accepted →
     (chat_calls w + 1 ≤ chat_calls w' ≤ chat_calls w + 3)%nat) ∧
    (new_status ≠ accepted → chat_calls w' = chat_calls w) ∧
    trace w' = trace w ++ EvCommit updated :: dispatched ∧
    Forall (fun e =>
              is_notification notification e ∨
              (new_status = accepted ∧
               is_chat_room {| trade_offer_id := offer_id;
                               user1_id := TradeOfferDB.proposer_id db_offer;
                               user2_id := TradeOfferDB.receiver_id db_offer |} e))
      dispatched.
Proof.
  intros Hreach Hdb Hallowed.
  destruct (reachable_store_ok env w Hreach offer_id db_offer Hdb) as [Hid _ Hparties _].
  pose proof (reachable_http_breakers_closed env w Hreach) as Hclosed.
  pose proof (allowed_check_transition db_offer new_status actor_id w Hparties Hallowed)
    as Hc.
  destruct (update_trade_offer_status_unfold env offer_id new_status actor_id w
              db_offer Hdb Hc) as (updated & w1 & Hu & Hrun).
  unfold db_update_status in Hu. injection Hu as Hupd Hw1.
  assert (∃ notification,
            notification_for updated new_status actor_id = Some notification ∧
            user_id notification
            = (if decide (actor_id = TradeOfferDB.receiver_id db_offer)
               then TradeOfferDB.proposer_id db_offer
               else TradeOfferDB.receiver_id db_offer) ∧
            related_offer_id notification = offer_id ∧
            related_user_id notification = actor_id) as (notification & Hnf & Hto & Hoff & Hact).
  { apply check_transition_ok_cases in Hc.
    rewrite <- Hupd. unfold notification_for. simpl.
    destruct Hc as [[_ [->|[->| ->]]]|[_ ->]]; eexists; split_and!; done. }
  assert (http_breakers_closed w1) as Hclosed1 by (by subst w1).
  pose proof (send_notification_resilient_posts env notification w1 Hclosed1)
    as (Hclosed2 & (Hcat2 & Hchat2 & evs2 & Htr2 & Hevs2) & Hcount2).
  assert (snd (send_trade_notification env updated new_status actor_id w1)
          = snd (send_notification_resilient env notification w1)) as Hsend.
  { unfold send_trade_notification. rewrite Hnf. unfold bind, ret.
    by destruct (send_notification_resilient env notification w1) as [[?|?] ?]. }
  rewrite Hsend in Hrun. simpl in Hrun.
  set (w2 := snd (send_notification_resilient env notification w1)) in *.
  assert (catalog_calls w1 = catalog_calls w ∧ chat_calls w1 = chat_calls w ∧
          notification_calls w1 = notification_calls w ∧
          trace w1 = trace w ++ [EvCommit updated]) as (Hcat1 & Hchat1 & Hnot1 & Htr1).
  { subst w1. simpl. by rewrite Hupd. }
  destruct (decide (new_status = accepted)) as [Hacc|Hacc].
  - pose proof (create_chat_room_posts env updated w2 Hclosed2)
      as (_ & (Hcat3 & Hnot3 & evs3 & Htr3 & Hevs3) & Hcount3).
    eexists updated, _, notification, (evs2 ++ evs3).
    split; [exact Hrun|]. split; [done|].
    split; [intros ->; rewrite Hto; by rewrite decide_False by done|].
    split; [intros ->; rewrite Hto; by rewrite decide_True|].
    split; [done|]. split; [done|].
    split; [congruence|].
    split; [rewrite Hnot3; lia|].
    split; [intros _; lia|].
    split; [done|].
    split; [rewrite Htr3, Htr2, Htr1; by rewrite <- !app_assoc|].
    apply Forall_app. split.
    + eapply Forall_impl; [exact Hevs2|]. intros e He. by left.
    + eapply Forall_impl; [exact Hevs3|]. intros e He. right. split; [done|].
      rewrite <- Hupd in He. simpl in He. by rewrite Hid in He.
  - eexists updated, _, notification, evs2.
    split; [exact Hrun|]. split; [done|].
    split; [intros ->; rewrite Hto; by rewrite decide_False by done|].
    split; [intros ->; rewrite Hto; by rewrite decide_True|].
    split; [done|]. split; [done|].
    split; [congruence|].
    split; [lia|].
    split; [done|].
    split; [intros _; congruence|].
    split; [rewrite Htr2, Htr1; by rewrite <- !app_assoc|].
    eapply Forall_impl; [exact Hevs2|]. intros e He. by left.
Qed.

Lemma update_trade_offer_status_dispatches_witness :
  reachable sample_env world_pending ∧
  db world_pending !! 1 = Some sample_pending ∧
  allowed sample_pending cancelled "alice" ∧
  ∃ updated w' notification,
    update_trade_offer_status sample_env 1 cancelled "alice" world_pending
    = (Ok updated, w') ∧
    notification_for updated cancelled "alice" = Some notification ∧
    user_id notification = "bob" ∧
    chat_calls w' = chat_calls world_pending.
Proof.
  assert (reachable sample_env world_pending) as Hreach
    by apply reachable_exec, reachable_init.
  assert (db world_pending !! 1 = Some sample_pending) as Hrow
    by (vm_compute; reflexivity).
  assert (allowed sample_pending cancelled "alice") as Hallowed.
  { left. split; [reflexivity|]. left. by split. }
  split; [exact Hreach|]. split; [exact Hrow|]. split; [exact Hallowed|].
  destruct (update_trade_offer_status_dispatches sample_env world_pending 1
              sample_pending cancelled "alice" Hreach Hrow Hallowed)
    as (updated & w' & notification & dispatched & Hu & Hnf & Hto & _ & _ & _ & _ & _
        & _ & Hchat & _).
  exists updated, w', notification. split; [exact Hu|]. split; [exact Hnf|].
  split; [by apply Hto|]. by apply Hchat.
Defined.

Lemma with_retry_first_ok {A} retry (operation : M A) w a w1 :
  operation w = (Ok a, w1) →
  with_retry retry operation w
  = {| outcome := Ok a; final := w1; invocations := 1; waits := [] |}.
Proof.
  intros Hop. unfold with_retry, retrying.
  change (3 - 1)%nat with 2%nat. cbn [retry_loop]. by rewrite Hop.
Qed.

(** A notification request that gets a response, whatever its status
    code, is not repeated: [send_notification_resilient] posts once and
    returns whether the status code is 201.  (Only transport errors are
    retried; nothing turns a 4xx or 5xx response into an exception.) *)
Theorem send_notification_resilient_posts_once_on_response
    (env : Env) (w : World) (data : NotificationData) (response : Response) :
  reachable env w →
  notifications_post env (notification_calls w) data = Ok response →
  send_notification_resilient env data w
  = (Ok (bool_decide (response_status_code response = 201)),
     snd (post_notification env data w)) ∧
  notification_calls (snd (send_notification_resilient env data w))
  = S (notification_calls w).
Proof.
  intros Hreach Hresp. apply reachable_http_breakers_closed in Hreach.
  unfold send_notification_resilient, try_except, bind.
  rewrite http_post_with_retry_closed; [|done|by intros s Hs|done].
  unfold run_retry.
  rewrite (with_retry_first_ok retry_if_httpx_error (post_notification env data) w
             response (snd (post_notification env data w)))
    by (unfold post_notification; by rewrite Hresp).
  cbn [outcome final]. unfold ret. split.
  - case_decide.
    + by rewrite bool_decide_eq_true_2.
    + by rewrite bool_decide_eq_false_2.
  - by case_decide.
Qed.

(** A notification service that answers every request with a 503. *)
Definition overloaded_env : Env :=
  {| catalog_ValidateItems := fun _ item_ids => Ok (map sample_catalog item_ids);
     notifications_post := fun _ _ =>
       Ok {| response_status_code := 503; response_json := 0 |};
     chat_rooms_post := fun _ _ =>
       Ok {| response_status_code := 201; response_json := 7 |} |}.

Lemma send_notification_resilient_posts_once_witness :
  let data := {| user_id := "alice"; related_offer_id := 1; related_user_id := "bob";
                 type_ := "trade_completed"; title := "Trade Completed! ✅";
                 body := "Congratulations! Your trade has been completed." |} in
  reachable overloaded_env (initial_world 0) ∧
  fst (send_notification_resilient overloaded_env data (initial_world 0)) = Ok false ∧
  notification_calls (snd (send_notification_resilient overloaded_env data
                             (initial_world 0))) = 1%nat.
Proof.
  intros data.
  assert (reachable overloaded_env (initial_world 0)) as Hreach
    by apply reachable_init.
  split; [exact Hreach|].
  destruct (send_notification_resilient_posts_once_on_response overloaded_env
              (initial_world 0) data
              {| response_status_code := 503; response_json := 0 |} Hreach eq_refl)
    as [Hres Hcalls].
  split; [|exact Hcalls]. by rewrite Hres.
Defined.

(** A status update or a deletion that fails leaves the world exactly as
    it was: no row is written, no notification or chat room is
    requested, no wait is made. *)
Theorem failed_request_changes_nothing
    (env : Env) (w : World) (offer_id : Z) (new_status : TradeOfferStatus)
    (actor_id : string) :
  (∀ e, fst (update_trade_offer_status env offer_id new_status actor_id w) = Raise e →
        snd (update_trade_offer_status env offer_id new_status actor_id w) = w) ∧
  (∀ e, fst (delete_trade_offer offer_id actor_id w) = Raise e →
        snd (delete_trade_offer offer_id actor_id w) = w).
Proof.
  split; intros e He.
  - destruct (db w !! offer_id) as [db_offer|] eqn:Hdb.
    + pose proof (update_trade_offer_status_result env offer_id new_status actor_id
                    w db_offer Hdb) as Hres.
      destruct (fst (check_transition db_offer new_status actor_id w)) as [[]|e'].
      * rewrite He in Hres. done.
      * by rewrite Hres.
    + unfold update_trade_offer_status, bind, get_or_404. by rewrite Hdb.
  - revert He. unfold delete_trade_offer, bind, get_or_404, raise.
    destruct (db w !! offer_id); [|done]. by repeat case_decide.
Qed.

(** Creation calls the catalog at most three times and never posts to
    the notification or the chat service. *)
Lemma retry_loop_count_le {St A} retry wait pause (operation : St → result A * St)
    (f : St → nat) :
  (∀ s, f (snd (operation s)) ≤ S (f s))%nat →
  (∀ z s, f (pause z s) = f s) →
  ∀ k n s,
    (f (final (retry_loop retry wait pause k n operation s))
     ≤ f s + invocations (retry_loop retry wait pause k n operation s))%nat.
Proof.
  intros Hop Hpause k. induction k as [|k IH]; intros n s; simpl;
    pose proof (Hop s) as Hf;
    destruct (operation s) as [[a|e] s1]; simpl in *; try lia;
    destruct (retry e); simpl; try lia.
  pose proof (IH (S n) (pause (wait n) s1)) as IH'.
  rewrite Hpause in IH'. lia.
Qed.

Lemma validate_items_attempt_counters env item_ids w :
  let w' := snd (validate_items_attempt env item_ids w) in
  (catalog_calls w ≤ catalog_calls w' ≤ S (catalog_calls w))%nat ∧
  notification_calls w' = notification_calls w ∧ chat_calls w' = chat_calls w.
Proof.
  unfold validate_items_attempt, try_except, bind, call, stub_ValidateItems, ret, raise.
  unfold before_call. simpl.
  destruct (state (catalog_circuit_breaker w)); simpl; try case_decide; simpl;
    try (destruct (catalog_ValidateItems env _ item_ids) as [?|[]]; simpl);
    split_and!; try done; lia.
Qed.

Theorem create_trade_offer_call_budget
    (env : Env) (offer_data : TradeOfferCreate.t) (w : World) :
  let w' := snd (create_trade_offer env offer_data w) in
  (catalog_calls w ≤ catalog_calls w' ≤ catalog_calls w + 3)%nat ∧
  notification_calls w' = notification_calls w ∧
  chat_calls w' = chat_calls w.
Proof.
  assert (∀ item_ids,
            let w1 := snd (validate_items env item_ids w) in
            (catalog_calls w ≤ catalog_calls w1 ≤ catalog_calls w + 3)%nat ∧
            notification_calls w1 = notification_calls w ∧
            chat_calls w1 = chat_calls w) as Hvalidate.
  { intros item_ids. simpl. unfold validate_items, run_retry. simpl.
    unfold with_retry, retrying.
    destruct (retry_loop_inv retry_if_RpcError (wait_exponential 1 1 10) sleep
                (validate_items_attempt env item_ids) (fun _ => True)
                (fun s s' => (catalog_calls s ≤ catalog_calls s')%nat ∧
                             notification_calls s' = notification_calls s ∧
                             chat_calls s' = chat_calls s))
      with (k := (3 - 1)%nat) (n := 1%nat) (s := w) as [_ (Hle & Hn & Hc)];
      try done.
    - intros s1 s2 s3 (? & ? & ?) (? & ? & ?). split_and!; [lia|congruence..].
    - intros s _. split; [done|].
      destruct (validate_items_attempt_counters env item_ids s) as (? & ? & ?).
      split_and!; [lia|done..].
    - pose proof (retry_loop_count_le retry_if_RpcError (wait_exponential 1 1 10)
                    sleep (validate_items_attempt env item_ids) catalog_calls) as Hcount.
      specialize (Hcount
        (fun s => proj2 (proj1 (validate_items_attempt_counters env item_ids s)))
        (fun z s => eq_refl) (3 - 1)%nat 1%nat w).
      pose proof (with_retry_invocations retry_if_RpcError
                    (validate_items_attempt env item_ids) w) as Hinv.
      unfold with_retry, retrying in Hinv. split_and!; [lia|lia|done..]. }
  intros w'. subst w'. unfold create_trade_offer.
  repeat case_decide; try (simpl; split_and!; [lia|lia|done..]).
  unfold bind at 1. unfold try_except, bind.
  specialize (Hvalidate
    (TradeOfferCreate.offered_item_ids offer_data
     ++ TradeOfferCreate.requested_item_ids offer_data)).
  cbv zeta in Hvalidate.
  destruct (validate_items env _ w) as [[validations|e] w1]; cbn [snd] in Hvalidate.
  - pose proof (check_validations_world offer_data validations w1) as Hc.
    destruct (check_validations offer_data validations w1) as [[[]|e] w2];
      simpl in Hc; subst w2.
    + unfold db_insert. simpl. done.
    + by destruct e.
  - by destruct e.
Qed.

(** Carol is no party of the sample offer: her request is refused and
    the world is untouched. *)
Lemma failed_request_changes_nothing_witness :
  fst (update_trade_offer_status sample_env 1 accepted "carol" world_pending)
  = Raise Unauthorized ∧
  snd (update_trade_offer_status sample_env 1 accepted "carol" world_pending)
  = world_pending.
Proof.
  assert (fst (update_trade_offer_status sample_env 1 accepted "carol" world_pending)
          = Raise Unauthorized) as He by (vm_compute; reflexivity).
  split; [exact He|].
  exact (proj1 (failed_request_changes_nothing sample_env world_pending 1 accepted
                  "carol") _ He).
Defined.

(** While the catalog breaker is open and its reset timeout has not
    passed, a well-formed creation request is answered with the 503
    "circuit breaker open" at once: no catalog call, no wait, nothing
    stored; the world is as before. *)
Theorem create_trade_offer_while_breaker_open
    (env : Env) (offer_data : TradeOfferCreate.t) (w : World) :
  well_formed_request offer_data →
  state (catalog_circuit_breaker w) = STATE_OPEN →
  now w - opened_at (catalog_circuit_breaker w)
  ≤ reset_timeout (catalog_circuit_breaker w) →
  create_trade_offer env offer_data w
  = (Raise (HTTPException HTTP_503_SERVICE_UNAVAILABLE
              Catalog_service_unavailable_circuit_breaker_open), w).
Proof.
  intros Hwf Hopen Htime. rewrite create_trade_offer_well_formed by done.
  unfold bind at 1. unfold try_except, bind at 1.
  unfold validate_items, run_retry.
  assert (∀ item_ids,
            validate_items_attempt env item_ids w = (Raise CircuitBreakerError, w))
    as Hattempt.
  { intros item_ids. unfold validate_items_attempt, try_except, bind, call, before_call.
    simpl. rewrite Hopen. by rewrite decide_False by lia. }
  destruct (with_retry_three_attempts retry_if_RpcError
              (validate_items_attempt env
                 (TradeOfferCreate.offered_item_ids offer_data
                  ++ TradeOfferCreate.requested_item_ids offer_data))
              (or_introl eq_refl)) as (_ & _ & _ & Hopen_once & _).
  by rewrite (Hopen_once w w (Hattempt _)).
Qed.

(** After two creation requests during an outage the catalog breaker is
    open; the third request is refused without a call. *)
Definition world_outage : World :=
  run outage_env [POST_offer sample_offer; POST_offer sample_offer] (initial_world 0).

Lemma create_trade_offer_while_breaker_open_witness :
  well_formed_request sample_offer ∧
  state (catalog_circuit_breaker world_outage) = STATE_OPEN ∧
  catalog_calls world_outage = 5%nat ∧
  create_trade_offer outage_env sample_offer world_outage
  = (Raise (HTTPException HTTP_503_SERVICE_UNAVAILABLE
              Catalog_service_unavailable_circuit_breaker_open), world_outage).
Proof.
  assert (well_formed_request sample_offer) as Hwf.
  { unfold well_formed_request, sample_offer; simpl. split_and!.
    - discriminate.
    - apply (bool_decide_unpack _). vm_compute. reflexivity.
    - apply (bool_decide_unpack _). vm_compute. reflexivity.
    - intros x Ho Hr. apply list_elem_of_singleton in Hr. subst x.
      revert Ho. apply (bool_decide_unpack _). vm_compute. reflexivity. }
  split; [exact Hwf|]. split; [vm_compute; reflexivity|].
  split; [vm_compute; reflexivity|].
  apply (create_trade_offer_while_breaker_open outage_env sample_offer world_outage Hwf).
  - vm_compute. reflexivity.
  - vm_compute. discriminate.
Defined.

(** ** The read endpoints *)

(** [db.query(TradeOfferDB) ... .all()]: the rows of the table. *)
Definition rows (w : World) : list TradeOfferDB.t := (map_to_list (db w)).*2.

(** [.order_by(TradeOfferDB.created_at.desc())]: most recent first (the
    order among rows with the same [created_at] is the store's). *)
Definition created_at_desc (a b : TradeOfferDB.t) : Prop :=
  TradeOfferDB.created_at b ≤ TradeOfferDB.created_at a.

#[global] Instance created_at_desc_dec a b : Decision (created_at_desc a b).
Proof. unfold created_at_desc. apply _. Defined.

Definition order_by_created_at_desc (query : list TradeOfferDB.t)
    : list TradeOfferDB.t :=
  merge_sort created_at_desc query.

(** [flag is True], and the truth value of an [Optional[bool]]. *)
Definition is_True (flag : option bool) : bool :=
  match flag with Some true => true | _ => false end.

(** [or_] applied to the list [user_filters]. *)
Definition or_ (filters : list (TradeOfferDB.t → bool)) (o : TradeOfferDB.t) : Prop :=
  existsb (fun f => f o) filters = true.

#[global] Instance or_dec filters o : Decision (or_ filters o).
Proof. unfold or_. apply _. Defined.

(** [if status: query = query.filter(TradeOfferDB.status == status.value)];
    every member of the enum is a non-empty string, hence true. *)
Definition filter_status (status : option TradeOfferStatus)
    (query : list TradeOfferDB.t) : list TradeOfferDB.t :=
  match status with
  | Some s => filter (fun o => TradeOfferDB.status o = s) query
  | None => query
  end.

(** [list_trade_offers]; [limit] and [offset] are validated by the
    framework ([ge=1, le=100] and [ge=0]). *)
Definition list_trade_offers (user : string) (status : option TradeOfferStatus)
    (as_proposer as_receiver : option bool) (limit offset : nat) (w : World)
    : list TradeOfferDB.t :=
  let query := rows w in
  let user_filters :=
    (if is_True as_proposer
     then [fun o => bool_decide (TradeOfferDB.proposer_id o = user)] else [])
    ++ (if is_True as_receiver
        then [fun o => bool_decide (TradeOfferDB.receiver_id o = user)] else []) in
  let query :=
    if (match user_filters with [] => true | _ => false end)
       || (is_True as_proposer && is_True as_receiver)
    then filter (fun o => TradeOfferDB.proposer_id o = user ∨
                          TradeOfferDB.receiver_id o = user) query
    else filter (or_ user_filters) query in
  let query := filter_status status query in
  let query := order_by_created_at_desc query in
  take limit (drop offset query).

(** [get_received_offers] and [get_sent_offers]. *)
Definition get_received_offers (user : string) (status : option TradeOfferStatus)
    (limit offset : nat) (w : World) : list TradeOfferDB.t :=
  let query := filter (fun o => TradeOfferDB.receiver_id o = user) (rows w) in
  let query := filter_status status query in
  take limit (drop offset (order_by_created_at_desc query)).

Definition get_sent_offers (user : string) (status : option TradeOfferStatus)
    (limit offset : nat) (w : World) : list TradeOfferDB.t :=
  let query := filter (fun o => TradeOfferDB.proposer_id o = user) (rows w) in
  let query := filter_status status query in
  take limit (drop offset (order_by_created_at_desc query)).

(** [class MatchStatistics] and [get_user_statistics]. *)
Record MatchStatistics := {
  total_offers : nat;
  pending_offers : nat;
  accepted_offers : nat;
  rejected_offers : nat;
  completed_offers : nat
}.

Definition get_user_statistics (user : string) (w : World) : MatchStatistics :=
  let offers :=
    filter (fun o => TradeOfferDB.proposer_id o = user ∨
                     TradeOfferDB.receiver_id o = user) (rows w) in
  let count (s : TradeOfferStatus) :=
    length (filter (fun o => TradeOfferDB.status o = s) offers) in
  {| total_offers := length offers;
     pending_offers := count pending;
     accepted_offers := count accepted;
     rejected_offers := count rejected;
     completed_offers := count completed |}.

(** [get_offers_by_item]: [ARRAY.contains([item_id])] on either list. *)
Definition get_offers_by_item (item : Z) (status : option TradeOfferStatus)
    (w : World) : list TradeOfferDB.t :=
  let query :=
    filter (fun o => item ∈ TradeOfferDB.offered_item_ids o ∨
                     item ∈ TradeOfferDB.requested_item_ids o) (rows w) in
  let query := filter_status status query in
  order_by_created_at_desc query.

Lemma elem_of_rows w o : o ∈ rows w ↔ ∃ k, db w !! k = Some o.
Proof.
  unfold rows. rewrite list_elem_of_fmap. split.
  - intros ([k o'] & -> & H). exists k. by apply elem_of_map_to_list.
  - intros (k & H). exists (k, o). split; [done|]. by apply elem_of_map_to_list.
Qed.

#[global] Instance created_at_desc_total : Total created_at_desc.
Proof. intros a b. unfold created_at_desc. lia. Qed.

#[global] Instance created_at_desc_trans : Transitive created_at_desc.
Proof. intros a b c. unfold created_at_desc. lia. Qed.

Lemma elem_of_order_by query o : o ∈ order_by_created_at_desc query ↔ o ∈ query.
Proof. unfold order_by_created_at_desc. by rewrite merge_sort_Permutation. Qed.

Lemma elem_of_filter_status status query o :
  o ∈ filter_status status query ↔
  o ∈ query ∧ (∀ s, status = Some s → TradeOfferDB.status o = s).
Proof.
  destruct status as [s|]; simpl.
  - rewrite list_elem_of_filter. split.
    + intros [H1 H2]. split; [done|]. by intros s' [= <-].
    + intros [H1 H2]. split; [by apply H2|done].
  - split; [|by intros [? _]]. intros H. split; [done|]. by intros s.
Qed.

Lemma page_sorted limit offset query :
  StronglySorted created_at_desc
    (take limit (drop offset (order_by_created_at_desc query))).
Proof.
  pose proof (StronglySorted_merge_sort created_at_desc query) as Hs.
  fold (order_by_created_at_desc query) in Hs.
  rewrite <- (take_drop offset (order_by_created_at_desc query)) in Hs.
  apply StronglySorted_app_1_r in Hs.
  rewrite <- (take_drop limit (drop offset _)) in Hs.
  by apply StronglySorted_app_1_l in Hs.
Qed.

Lemma elem_of_page limit offset (query : list TradeOfferDB.t) o :
  o ∈ take limit (drop offset query) → o ∈ query.
Proof.
  intros H. eapply elem_of_sublist; [exact H|].
  etrans; [apply sublist_take|apply sublist_drop].
Qed.

(** What [list_trade_offers] returns: at most [limit] rows, most recent
    first, each of them stored, involving the user, of the requested
    status if one is given, and in the requested role if exactly one of
    the two flags is true. *)
Theorem list_trade_offers_sound
    (user : string) (status : option TradeOfferStatus)
    (as_proposer as_receiver : option bool) (limit offset : nat) (w : World) :
  let result := list_trade_offers user status as_proposer as_receiver limit offset w in
  (length result ≤ limit)%nat ∧
  StronglySorted created_at_desc result ∧
  ∀ o, o ∈ result →
    (∃ k, db w !! k = Some o) ∧
    (TradeOfferDB.proposer_id o = user ∨ TradeOfferDB.receiver_id o = user) ∧
    (∀ s, status = Some s → TradeOfferDB.status o = s) ∧
    (is_True as_proposer = true → is_True as_receiver = false →
     TradeOfferDB.proposer_id o = user) ∧
    (is_True as_receiver = true → is_True as_proposer = false →
     TradeOfferDB.receiver_id o = user).
Proof.
  intros result. subst result. unfold list_trade_offers.
  split; [rewrite length_take; lia|]. split; [apply page_sorted|].
  intros o Ho. apply elem_of_page, elem_of_order_by, elem_of_filter_status in Ho
    as [Ho Hstatus].
  destruct (is_True as_proposer), (is_True as_receiver); simpl in Ho;
    apply list_elem_of_filter in Ho as [Hu Ho]; apply elem_of_rows in Ho;
    unfold or_ in Hu; simpl in Hu;
    rewrite ?orb_false_r, ?bool_decide_eq_true in Hu;
    split_and!; try done; try tauto.
Qed.

(** The two role flags of [list_trade_offers]: only [True] counts.  With
    no flag true, or both, the offers of both roles are listed, so
    [as_proposer=false] does not exclude the offers the user proposed;
    with [as_receiver] alone true the result is that of
    [get_received_offers], with [as_proposer] alone true that of
    [get_sent_offers]. *)
Theorem list_trade_offers_flags
    (user : string) (status : option TradeOfferStatus)
    (as_proposer as_receiver : option bool) (limit offset : nat) (w : World) :
  (is_True as_proposer = is_True as_receiver →
   list_trade_offers user status as_proposer as_receiver limit offset w
   = list_trade_offers user status None None limit offset w) ∧
  (is_True as_proposer = false → is_True as_receiver = true →
   list_trade_offers user status as_proposer as_receiver limit offset w
   = get_received_offers user status limit offset w) ∧
  (is_True as_proposer = true → is_True as_receiver = false →
   list_trade_offers user status as_proposer as_receiver limit offset w
   = get_sent_offers user status limit offset w).
Proof.
  unfold list_trade_offers, get_received_offers, get_sent_offers.
  split_and!.
  - intros Heq. rewrite <- Heq. by destruct (is_True as_proposer).
  - intros -> ->. simpl. do 4 f_equal. apply list_filter_iff. intros o.
    unfold or_. simpl. by rewrite orb_false_r, bool_decide_eq_true.
  - intros -> ->. simpl. do 4 f_equal. apply list_filter_iff. intros o.
    unfold or_. simpl. by rewrite orb_false_r, bool_decide_eq_true.
Qed.

Lemma list_trade_offers_flags_witness :
  list_trade_offers "alice" None (Some false) None 20 0 world_accepted
  = list_trade_offers "alice" None None None 20 0 world_accepted ∧
  list_trade_offers "alice" None (Some false) None 20 0 world_accepted
  = [sample_accepted].
Proof.
  split; [|vm_compute; reflexivity].
  apply (proj1 (list_trade_offers_flags "alice" None (Some false) None 20 0
                  world_accepted)).
  reflexivity.
Defined.

(** Without paging ([offset = 0] and a [limit] no smaller than the
    table) [list_trade_offers] with no role flag returns every stored
    offer that involves the user and has the requested status. *)
Theorem list_trade_offers_complete
    (user : string) (status : option TradeOfferStatus) (limit : nat)
    (w : World) (o : TradeOfferDB.t) :
  (length (rows w) ≤ limit)%nat →
  (o ∈ list_trade_offers user status None None limit 0 w ↔
   (∃ k, db w !! k = Some o) ∧
   (TradeOfferDB.proposer_id o = user ∨ TradeOfferDB.receiver_id o = user) ∧
   (∀ s, status = Some s → TradeOfferDB.status o = s)).
Proof.
  intros Hlimit. unfold list_trade_offers. simpl. rewrite drop_0.
  rewrite take_ge.
  - rewrite elem_of_order_by, elem_of_filter_status, list_elem_of_filter,
      elem_of_rows. tauto.
  - unfold order_by_created_at_desc. rewrite merge_sort_Permutation.
    etrans; [|exact Hlimit].
    destruct status as [s|]; simpl.
    + etrans; [apply length_filter|apply length_filter].
    + apply length_filter.
Qed.

Lemma list_trade_offers_complete_witness :
  (length (rows world_accepted) ≤ 20)%nat ∧
  sample_accepted ∈ list_trade_offers "bob" (Some accepted) None None 20 0
                      world_accepted.
Proof.
  assert (length (rows world_accepted) ≤ 20)%nat as Hlimit
    by (vm_compute; lia).
  split; [exact Hlimit|].
  apply (list_trade_offers_complete "bob" (Some accepted) 20 world_accepted
           sample_accepted Hlimit).
  split; [exists 1; vm_compute; reflexivity|].
  split; [by right|]. by intros s [= <-].
Defined.

(** The statistics of a user leave the cancelled offers out: the total
    is the sum of the four reported counts plus the number of cancelled
    offers the user is involved in. *)
Theorem get_user_statistics_total (user : string) (w : World) :
  let stats := get_user_statistics user w in
  let cancelled_offers :=
    length (filter (fun o => TradeOfferDB.status o = cancelled)
              (filter (fun o => TradeOfferDB.proposer_id o = user ∨
                                TradeOfferDB.receiver_id o = user) (rows w))) in
  total_offers stats
  = (pending_offers stats + accepted_offers stats + rejected_offers stats
     + completed_offers stats + cancelled_offers)%nat.
Proof.
  unfold get_user_statistics. simpl.
  induction (filter _ (rows w)) as [|o offers IH]; [done|].
  rewrite !filter_cons. simpl.
  destruct (TradeOfferDB.status o); repeat case_decide; try done; simpl; lia.
Qed.

(** [get_offers_by_item] returns exactly the stored offers that have the
    item among the offered or the requested items and have the
    requested status, most recent first. *)
Theorem get_offers_by_item_spec
    (item : Z) (status : option TradeOfferStatus) (w : World) :
  StronglySorted created_at_desc (get_offers_by_item item status w) ∧
  ∀ o, o ∈ get_offers_by_item item status w ↔
       (∃ k, db w !! k = Some o) ∧
       (item ∈ TradeOfferDB.offered_item_ids o ∨
        item ∈ TradeOfferDB.requested_item_ids o) ∧
       (∀ s, status = Some s → TradeOfferDB.status o = s).
Proof.
  unfold get_offers_by_item. split.
  - apply StronglySorted_merge_sort; apply _.
  - intros o. rewrite elem_of_order_by, elem_of_filter_status, list_elem_of_filter,
      elem_of_rows. tauto.
Qed.

Lemma list_trade_offers_sound_witness :
  sample_accepted ∈ list_trade_offers "bob" None None (Some true) 20 0 world_accepted ∧
  TradeOfferDB.receiver_id sample_accepted = "bob".
Proof.
  assert (sample_accepted
          ∈ list_trade_offers "bob" None None (Some true) 20 0 world_accepted) as Hin
    by (vm_compute; apply list_elem_of_here).
  split; [exact Hin|].
  destruct (list_trade_offers_sound "bob" None None (Some true) 20 0 world_accepted)
    as (_ & _ & H).
  destruct (H sample_accepted Hin) as (_ & _ & _ & _ & Hr). by apply Hr.
Defined.

(** ** metrics.py: [update_trade_offer_metrics] *)

(** The two gauges the function sets: [trade_offers_by_status], one
    value per status label ([None]: never set), and [active_users]. *)
Record Metrics := {
  trade_offers_by_status : TradeOfferStatus → option nat;
  active_users : nat
}.

Definition all_statuses : list TradeOfferStatus :=
  [pending; accepted; rejected; cancelled; completed].

Definition count_status (s : TradeOfferStatus) (w : World) : nat :=
  length (filter (fun o => TradeOfferDB.status o = s) (rows w)).

(** [query(TradeOfferDB.status, func.count(TradeOfferDB.id))
    .group_by(TradeOfferDB.status).all()]: one pair per status that
    occurs in the table. *)
Definition status_counts (w : World) : list (TradeOfferStatus * nat) :=
  filter (fun sc => sc.2 ≠ 0%nat) (map (fun s => (s, count_status s w)) all_statuses).

(** [trade_offers_by_status.labels(status=status).set(count)]. *)
Definition set_gauge (s : TradeOfferStatus) (count : nat)
    (gauge : TradeOfferStatus → option nat) : TradeOfferStatus → option nat :=
  fun s' => if decide (s' = s) then Some count else gauge s'.

(** [func.count(func.distinct(TradeOfferDB.proposer_id))] over the rows
    whose status is pending or accepted. *)
Definition active_proposers (w : World) : list string :=
  remove_dups
    (map TradeOfferDB.proposer_id
       (filter (fun o => TradeOfferDB.status o ∈ [pending; accepted]) (rows w))).

Definition update_trade_offer_metrics (w : World) (m : Metrics) : Metrics :=
  {| trade_offers_by_status :=
       foldl (fun gauge sc => set_gauge sc.1 sc.2 gauge)
         (trade_offers_by_status m) (status_counts w);
     active_users := length (active_proposers w) |}.

(** After [update_trade_offer_metrics] the gauge of a status that occurs
    in the table is the number of its rows, and the gauge of a status
    with no row is left at its previous value: it is not reset to 0, so
    it keeps showing the last non-zero count. *)
Theorem update_trade_offer_metrics_by_status
    (w : World) (m : Metrics) (s : TradeOfferStatus) :
  trade_offers_by_status (update_trade_offer_metrics w m) s
  = if decide (count_status s w = 0%nat) then trade_offers_by_status m s
    else Some (count_status s w).
Proof.
  unfold update_trade_offer_metrics, status_counts, all_statuses. simpl.
  rewrite !filter_cons, filter_nil. simpl.
  destruct s; repeat case_decide; simpl; unfold set_gauge; simpl; congruence.
Qed.

(** [active_users] is the number of distinct users who proposed an offer
    that is pending or accepted; a user who only received offers is not
    counted. *)
Theorem update_trade_offer_metrics_active_users (w : World) (m : Metrics) :
  ∃ users : list string,
    NoDup users ∧
    active_users (update_trade_offer_metrics w m) = length users ∧
    ∀ u, u ∈ users ↔
         ∃ k o, db w !! k = Some o ∧ TradeOfferDB.proposer_id o = u ∧
                (TradeOfferDB.status o = pending ∨ TradeOfferDB.status o = accepted).
Proof.
  exists (active_proposers w). split; [apply NoDup_remove_dups|]. split; [done|].
  intros u. unfold active_proposers. rewrite elem_of_remove_dups.
  change (map TradeOfferDB.proposer_id ?l) with (TradeOfferDB.proposer_id <$> l).
  rewrite list_elem_of_fmap. split.
  - intros (o & -> & Ho). apply list_elem_of_filter in Ho as [Hs Ho].
    apply elem_of_rows in Ho as [k Hk]. exists k, o. split_and!; [done..|].
    set_solver.
  - intros (k & o & Hk & <- & Hs). exists o. split; [done|].
    apply list_elem_of_filter. split; [set_solver|]. apply elem_of_rows. eauto.
Qed.

(** After the only pending offer was accepted, a refresh sets the
    accepted gauge to 1 and leaves the pending gauge at 1. *)
Example pending_gauge_is_stale :
  let m1 := update_trade_offer_metrics world_pending
              {| trade_offers_by_status := fun _ => None; active_users := 0 |} in
  let m2 := update_trade_offer_metrics world_accepted m1 in
  trade_offers_by_status m1 pending = Some 1%nat ∧
  count_status pending world_accepted = 0%nat ∧
  trade_offers_by_status m2 pending = Some 1%nat ∧
  trade_offers_by_status m2 accepted = Some 1%nat ∧
  active_users m2 = 1%nat.
Proof. vm_compute. repeat split. Qed.

(** ** Creation against a catalog that replies per id *)

Lemma verdicts_pass_per_id offer_data known :
  verdicts_pass offer_data
    (catalog_reply known (TradeOfferCreate.offered_item_ids offer_data
                          ++ TradeOfferCreate.requested_item_ids offer_data)) ↔
  (∀ id, id ∈ TradeOfferCreate.offered_item_ids offer_data →
         known id = Some (true, TradeOfferCreate.proposer_id offer_data)) ∧
  (∀ id, id ∈ TradeOfferCreate.requested_item_ids offer_data →
         known id = Some (true, TradeOfferCreate.receiver_id offer_data)).
Proof.
  set (offered := TradeOfferCreate.offered_item_ids offer_data).
  set (requested := TradeOfferCreate.requested_item_ids offer_data).
  assert (∀ v, v ∈ catalog_reply known (offered ++ requested) ↔
               ∃ id, (id ∈ offered ∨ id ∈ requested) ∧ v = catalog_verdict known id)
    as Hreply.
  { intros v. unfold catalog_reply.
    change (map (catalog_verdict known) (offered ++ requested))
      with (catalog_verdict known <$> (offered ++ requested)).
    rewrite list_elem_of_fmap. setoid_rewrite elem_of_app. naive_solver. }
  assert (∀ (P : ValidationResult → Prop) `{∀ v, Decision (P v)} l,
            map item_id (filter P l) = [] ↔ ∀ v, v ∈ l → ¬ P v) as Hnil.
  { intros P HP l. rewrite map_item_id_nil. split.
    - intros Hf v Hv HPv.
      assert (v ∈ filter P l) as Hin by (by apply list_elem_of_filter).
      rewrite Hf in Hin. by apply not_elem_of_nil in Hin.
    - intros Hall. destruct (filter P l) as [|v l'] eqn:Hf; [done|].
      assert (v ∈ filter P l) as Hin by (rewrite Hf; apply list_elem_of_here).
      apply list_elem_of_filter in Hin as [HPv Hv]. by destruct (Hall v Hv). }
  unfold verdicts_pass, ids_not_found, ids_inactive, ids_not_of_proposer,
    ids_not_of_receiver. fold offered requested.
  rewrite !Hnil. split.
  - intros (Hex & Hact & Hprop & Hrecv). split; intros id Hid.
    + assert (catalog_verdict known id ∈ catalog_reply known (offered ++ requested))
        as Hv by (apply Hreply; eauto).
      specialize (Hex _ Hv). specialize (Hact _ Hv). specialize (Hprop _ Hv).
      unfold catalog_verdict in Hex, Hact, Hprop.
      destruct (known id) as [[active owner]|]; simpl in *; [|done].
      destruct active; [|done].
      destruct (decide (owner = TradeOfferCreate.proposer_id offer_data)) as [->|Hne];
        [done|]. destruct Hprop. by split.
    + assert (catalog_verdict known id ∈ catalog_reply known (offered ++ requested))
        as Hv by (apply Hreply; eauto).
      specialize (Hex _ Hv). specialize (Hact _ Hv). specialize (Hrecv _ Hv).
      unfold catalog_verdict in Hex, Hact, Hrecv.
      destruct (known id) as [[active owner]|]; simpl in *; [|done].
      destruct active; [|done].
      destruct (decide (owner = TradeOfferCreate.receiver_id offer_data)) as [->|Hne];
        [done|]. destruct Hrecv. by split.
  - intros [Hoff Hreq].
    assert (∀ v, v ∈ catalog_reply known (offered ++ requested) →
                 exists_ v = true ∧ is_active v = true ∧
                 (item_id v ∈ offered →
                  owner_id v = TradeOfferCreate.proposer_id offer_data) ∧
                 (item_id v ∈ requested →
                  owner_id v = TradeOfferCreate.receiver_id offer_data)) as Hall.
    { intros v Hv. apply Hreply in Hv as (id & Hid & ->).
      unfold catalog_verdict.
      destruct Hid as [Hid|Hid].
      - rewrite (Hoff id Hid). simpl. split_and!; try done.
        intros Hr. pose proof (Hoff id Hid) as E1. pose proof (Hreq id Hr) as E2.
        congruence.
      - rewrite (Hreq id Hid). simpl. split_and!; try done.
        intros Ho. pose proof (Hoff id Ho) as E1. pose proof (Hreq id Hid) as E2.
        congruence. }
    split_and!; intros v Hv; destruct (Hall v Hv) as (H1 & H2 & H3 & H4).
    + by rewrite H1.
    + by rewrite H2.
    + intros [Hin Hne]. by apply Hne, H3.
    + intros [Hin Hne]. by apply Hne, H4.
Qed.

(** Against a catalog that replies per id, a well-formed creation
    request whose catalog call succeeds is accepted exactly when every
    offered item is known to the catalog, active and owned by the
    proposer, and every requested item is known, active and owned by the
    receiver. *)
Theorem create_trade_offer_succeeds_iff_items_valid
    (env : Env) (offer_data : TradeOfferCreate.t) (w w1 : World)
    (verdicts : list ValidationResult) :
  catalog_per_id env →
  well_formed_request offer_data →
  validate_items env (TradeOfferCreate.offered_item_ids offer_data
                      ++ TradeOfferCreate.requested_item_ids offer_data) w
  = (Ok verdicts, w1) →
  ∃ known,
    verdicts = catalog_reply known (TradeOfferCreate.offered_item_ids offer_data
                                    ++ TradeOfferCreate.requested_item_ids offer_data) ∧
    (is_ok (fst (create_trade_offer env offer_data w)) = true ↔
     (∀ id, id ∈ TradeOfferCreate.offered_item_ids offer_data →
            known id = Some (true, TradeOfferCreate.proposer_id offer_data)) ∧
     (∀ id, id ∈ TradeOfferCreate.requested_item_ids offer_data →
            known id = Some (true, TradeOfferCreate.receiver_id offer_data))).
Proof.
  intros Hcatalog Hwf Hv.
  destruct (validate_items_returns_catalog_response env _ w w1 verdicts Hv)
    as (k & _ & Hreply).
  destruct (Hcatalog k _ verdicts Hreply) as (known & ->).
  exists known. split; [done|].
  rewrite <- verdicts_pass_per_id.
  apply (create_trade_offer_succeeds_iff_verdicts_pass env offer_data w w1 _ Hwf Hv).
Qed.

(** Alice offers item 7, which the sample catalog does not know: the
    request is refused. *)
Lemma create_trade_offer_succeeds_iff_items_valid_witness :
  let offer_data := TradeOfferCreate.mk "alice" "bob" [7] [3] None in
  catalog_per_id sample_env ∧
  well_formed_request offer_data ∧
  fst (create_trade_offer sample_env offer_data (initial_world 0))
  = Raise (HTTPException HTTP_404_NOT_FOUND (Items_not_found [7])) ∧
  ∃ known, known 7 = None ∧
           fst (validate_items sample_env [7; 3] (initial_world 0))
           = Ok (catalog_reply known [7; 3]).
Proof.
  intros offer_data.
  assert (well_formed_request offer_data) as Hwf.
  { unfold well_formed_request, offer_data; simpl. split_and!.
    - discriminate.
    - apply (bool_decide_unpack _). vm_compute. reflexivity.
    - apply (bool_decide_unpack _). vm_compute. reflexivity.
    - intros x Ho Hr. apply list_elem_of_singleton in Hr. subst x.
      revert Ho. apply (bool_decide_unpack _). vm_compute. reflexivity. }
  split; [exact sample_env_per_id|]. split; [exact Hwf|].
  split; [vm_compute; reflexivity|].
  assert (validate_items sample_env [7; 3] (initial_world 0)
          = (Ok (map sample_catalog [7; 3]),
             snd (validate_items sample_env [7; 3] (initial_world 0)))) as Hv
    by (vm_compute; reflexivity).
  destruct (create_trade_offer_succeeds_iff_items_valid sample_env offer_data
              (initial_world 0) _ _ sample_env_per_id Hwf Hv)
    as (known & Hreply & _).
  exists known. split.
  - pose proof Hreply as Hreply'. unfold catalog_reply in Hreply'.
    simpl in Hreply'. injection Hreply' as H7 _. unfold catalog_verdict in H7.
    destruct (known 7) as [[]|]; [|done]. vm_compute in H7. discriminate.
  - rewrite Hv. cbn [fst]. f_equal. exact Hreply.
Defined.
